(** * pdf2zh.high_level: layout mask, font resolution, resource patching,
      page sweep and bilingual assembly

    A shallow embedding of [src/pdf2zh/high_level.py] and the properties
    its design document states about it.  Python integers are [Z]; the
    detector's coordinates are finite floats, read as the rationals [Q]
    they denote, with exact arithmetic and [int()] as truncation toward
    zero; dictionaries are [gmap]; a raised exception is the left summand
    of a result type; and the state a function mutates (file system,
    progress bar, document objects) is passed explicitly.  The detector,
    the content-stream interpreter and the PDF library are not part of
    that file: they appear as records of functions, or, where a property
    depends on what they do, as models of their documented behaviour. *)

From Stdlib Require Import ZArith QArith Lia Ascii String.
From stdpp Require Import base option list gmap strings pretty.

Local Open Scope Z_scope.

(* ===================================================================== *)
(** * Part I: definitions *)
(* ===================================================================== *)

(** ** The layout mask of [translate_patch] (lines 204-227) *)

Module Mask.

(** Modelled from the spec: the detector's answer ([pdf2zh.doclayout] is
    not among the sources): a list of boxes, each with [(x0, y0, x1, y1)]
    and a class index, and a class-name lookup table.  [xyxy] and [cls]
    are the floats [d.xyxy] and [d.cls]. *)
Record YoloBox := mkBox { xyxy : Q * Q * Q * Q; cls : Q }.

(** [page_layout]: the boxes in detector order and the class-name
    table [page_layout.names]. *)
Record YoloResult := mkResult { boxes : list YoloBox; names : gmap Z string }.

Abbreviation mask := (list (list Z)).

Definition vcls : list string :=
  ["abandon"; "figure"; "table"; "isolate_formula"; "formula_caption"].

(** Python's [int()] on a float: truncation toward zero. *)
Definition py_int (q : Q) : Z := Z.quot (Qnum q) (Z.pos (Qden q)).

(** [np.clip(a, lo, hi)] is [minimum(maximum(a, lo), hi)]. *)
Definition np_clip (a lo hi : Z) : Z := Z.min (Z.max a lo) hi.

(** The four clamped coordinates [x0, y0, x1, y1] of lines 210-215
    (and 220-225), for a mask of [h] rows and [w] columns. *)
Definition rect (h w : Z) (d : YoloBox) : Z * Z * Z * Z :=
  let '(x0, y0, x1, y1) := xyxy d in
  ( np_clip (py_int (x0 - 1)) 0 (w - 1),
    np_clip (py_int (inject_Z h - y1 - 1)) 0 (h - 1),
    np_clip (py_int (x1 + 1)) 0 (w - 1),
    np_clip (py_int (inject_Z h - y0 + 1)) 0 (h - 1) ).

(** A bound of a Python slice over an axis of length [n]: negative
    bounds count from the end, and every bound is cut to [0, n]. *)
Definition slice_bound (n i : Z) : Z :=
  if i <? 0 then Z.max 0 (i + n) else Z.min i n.

(** Is index [k] selected by [lo:hi] on an axis of length [n]? *)
Definition in_slice (n lo hi : Z) (k : nat) : bool :=
  (slice_bound n lo <=? Z.of_nat k) && (Z.of_nat k <? slice_bound n hi).

(** [box[y0:y1, x0:x1] = v]. *)
Definition paint (m : mask) (y0 y1 x0 x1 v : Z) : mask :=
  imap (fun r row =>
          if in_slice (Z.of_nat (length m)) y0 y1 r
          then imap (fun c old =>
                       if in_slice (Z.of_nat (length row)) x0 x1 c
                       then v else old) row
          else row) m.

Definition paint_rect (h w : Z) (d : YoloBox) (v : Z) (m : mask) : mask :=
  let '(x0, y0, x1, y1) := rect h w d in paint m y0 y1 x0 x1 v.

(** [page_layout.names[int(d.cls)] in vcls]; [None] is the [KeyError]
    of a class index missing from the table. *)
Definition preserved (nm : gmap Z string) (d : YoloBox) : option bool :=
  name ← nm !! py_int (cls d); Some (bool_decide (name ∈ vcls)).

(** The first loop (lines 207-216), from enumeration index [i] on. *)
Fixpoint paint_translatable (nm : gmap Z string) (h w i : Z)
    (bs : list YoloBox) (m : mask) : option mask :=
  match bs with
  | [] => Some m
  | d :: bs' =>
      p ← preserved nm d;
      paint_translatable nm h w (i + 1) bs'
        (if negb p then paint_rect h w d (i + 2) m else m)
  end.

(** The second loop (lines 217-226). *)
Fixpoint paint_preserved (nm : gmap Z string) (h w : Z)
    (bs : list YoloBox) (m : mask) : option mask :=
  match bs with
  | [] => Some m
  | d :: bs' =>
      p ← preserved nm d;
      paint_preserved nm h w bs' (if (p : bool) then paint_rect h w d 0 m else m)
  end.

(** Lines 204-226: the mask of a page whose pixmap has [pix_height]
    rows and [pix_width] columns. *)
Definition layout_mask (pix_height pix_width : nat) (page_layout : YoloResult)
    : option mask :=
  let box := replicate pix_height (replicate pix_width 1) in
  let h := Z.of_nat pix_height in
  let w := Z.of_nat pix_width in
  m ← paint_translatable (names page_layout) h w 0 (boxes page_layout) box;
  paint_preserved (names page_layout) h w (boxes page_layout) m.

(** The cell [box[r, c]] for indices inside the mask. *)
Definition cell (m : mask) (r c : nat) : option Z :=
  match m !! r with
  | Some row => row !! c
  | None => None
  end.

(** A mask of [h] rows, each of [w] cells. *)
Definition shaped (h w : nat) (m : mask) : Prop :=
  length m = h ∧ ∀ r row, m !! r = Some row → length row = w.

(** Sample detections on a 4x4 page: a text block over the whole image
    and a figure in its middle. *)
Definition sample_names : gmap Z string :=
  {[ 0 := "plain text"; 1 := "figure" ]}.
Definition text_box : YoloBox := mkBox (0#1, 0#1, 4#1, 4#1)%Q (0#1)%Q.
Definition figure_box : YoloBox := mkBox (1#1, 1#1, 2#1, 2#1)%Q (1#1)%Q.
Definition sample_layout : YoloResult :=
  mkResult [figure_box; text_box] sample_names.

(** A single translatable box over columns 1..3 that spans the image
    from its top edge [y = 0] to its bottom edge [y = h = 4]. *)
Definition top_box : YoloBox := mkBox (1#1, 0#1, 3#1, 4#1)%Q (0#1)%Q.
Definition top_layout : YoloResult := mkResult [top_box] sample_names.

End Mask.

(** ** Exceptions and the observable world *)

Module Py.

(** The exceptions the module raises or lets through. *)
Inductive exn :=
| KeyError (key : string)
| RuntimeError (msg : string)
| CancelledError (msg : string)
| PDFValueError (msg : string)
| ValueError (msg : string)
| OSError (msg : string)
| OtherError (msg : string).

(** A call either raises or returns. *)
Abbreviation result A := (exn + A)%type.

Definition bind {A B} (r : result A) (k : A → result B) : result B :=
  match r with
  | inl e => inl e
  | inr a => k a
  end.

(** What [urllib.request.urlretrieve] can do: write the whole file, or
    raise, possibly after it has created the target file. *)
Inductive fetch_outcome := Fetched | FetchFailed (left_partial_file : bool).

(** The state outside the interpreter that the module reads and writes:
    the paths that exist, whether the cache directory can be made, the
    outcome of the n-th download, the downloads started so far, and the
    value of [progress.n] at each call of the progress callback. *)
Record World := mkWorld {
  files : gset string;
  mkdir_ok : bool;
  network : nat → fetch_outcome;
  fetches : list (string * string);
  callback_log : list nat;
}.

Definition exists_ (w : World) (path : string) : bool :=
  bool_decide (path ∈ files w).

Definition add_file (path : string) (w : World) : World :=
  mkWorld ({[ path ]} ∪ files w) (mkdir_ok w) (network w) (fetches w)
          (callback_log w).

Definition log_fetch (url path : string) (w : World) : World :=
  mkWorld (files w) (mkdir_ok w) (network w) (fetches w ++ [(url, path)])
          (callback_log w).

Definition log_callback (n : nat) (w : World) : World :=
  mkWorld (files w) (mkdir_ok w) (network w) (fetches w)
          (callback_log w ++ [n]).

End Py.

(** ** Font lookup: [get_system_fonts], [get_fallback_font] and lines
       254-267 of [translate_stream] *)

Module Fonts.
Import Py.

Inductive platform := Win32 | Darwin | OtherPlatform.

(** The process environment: [sys.platform], [os.environ], the result of
    [os.path.expanduser] and of [tempfile.gettempdir()]. *)
Record Env := mkEnv {
  sys_platform : platform;
  environ : gmap string string;
  expanduser : string → string;
  gettempdir : string;
}.

Definition last_char (s : string) : option Ascii.ascii :=
  last (String.list_ascii_of_string s).

(** [os.path.join dir name] for a relative [name]: the separator is
    added unless [dir] is empty or already ends with one. *)
Definition is_sep (p : platform) (c : Ascii.ascii) : bool :=
  match p with
  | Win32 => bool_decide (c = "/"%char) || bool_decide (c = "\"%char)
  | _ => bool_decide (c = "/"%char)
  end.

Definition path_join (p : platform) (dir name : string) : string :=
  let sep := match p with Win32 => "\" | _ => "/" end in
  match last_char dir with
  | None => name
  | Some c => if is_sep p c then dir +:+ name else dir +:+ sep +:+ name
  end.

Definition getenv (e : Env) (key : string) : result string :=
  match environ e !! key with
  | Some v => inr v
  | None => inl (KeyError key)
  end.

(** [font_paths] of the three platform branches (lines 65-68, 77-81,
    90-94); on Windows a missing variable raises [KeyError]. *)
Definition font_paths (e : Env) : result (list string) :=
  let j := path_join (sys_platform e) in
  match sys_platform e with
  | Win32 =>
      bind (getenv e "WINDIR") (λ windir,
      bind (getenv e "LOCALAPPDATA") (λ local,
      inr [ j windir "Fonts";
            j (j (j local "Microsoft") "Windows") "Fonts" ]))
  | Darwin =>
      inr [ "/System/Library/Fonts"; "/Library/Fonts";
            expanduser e "~/Library/Fonts" ]
  | OtherPlatform =>
      inr [ "/usr/share/fonts"; "/usr/local/share/fonts";
            expanduser e "~/.fonts" ]
  end.

(** [font_files], in the insertion order the dictionary is iterated. *)
Definition font_files (p : platform) : list (string * list string) :=
  match p with
  | Darwin =>
      [ ("simsun", ["Sun.ttf"; "STSong.ttf"]);
        ("simhei", ["STHeiti.ttf"]);
        ("msyh", ["STHeiti Light.ttf"]);
        ("simkai", ["STKaiti.ttf"]) ]
  | _ =>
      [ ("simsun", ["simsun.ttc"; "simsun.ttf"]);
        ("simhei", ["simhei.ttf"]);
        ("msyh", ["msyh.ttc"; "msyh.ttf"]);
        ("simkai", ["simkai.ttf"]) ]
  end.

(** Lines 107-111: the loop over [filenames], leaving at the first hit. *)
Fixpoint scan_filenames (w : World) (p : platform) (font_name font_path : string)
    (filenames : list string) (system_fonts : gmap string string)
    : gmap string string :=
  match filenames with
  | [] => system_fonts
  | filename :: rest =>
      let full_path := path_join p font_path filename in
      if exists_ w full_path
      then <[ font_name := full_path ]> system_fonts
      else scan_filenames w p font_name font_path rest system_fonts
  end.

(** Lines 104-113: the loop over [font_paths] for one family. *)
Fixpoint scan_paths (w : World) (p : platform) (font_name : string)
    (filenames : list string) (paths : list string)
    (system_fonts : gmap string string) : gmap string string :=
  match paths with
  | [] => system_fonts
  | font_path :: rest =>
      if negb (exists_ w font_path)
      then scan_paths w p font_name filenames rest system_fonts
      else
        let system_fonts' :=
          scan_filenames w p font_name font_path filenames system_fonts in
        if bool_decide (is_Some (system_fonts' !! font_name))
        then system_fonts'
        else scan_paths w p font_name filenames rest system_fonts'
  end.

(** Lines 103-113: the loop over the families. *)
Fixpoint scan_families (w : World) (p : platform) (paths : list string)
    (fams : list (string * list string)) (system_fonts : gmap string string)
    : gmap string string :=
  match fams with
  | [] => system_fonts
  | (font_name, filenames) :: rest =>
      scan_families w p paths rest
        (scan_paths w p font_name filenames paths system_fonts)
  end.

Definition get_system_fonts (e : Env) (w : World) : result (gmap string string) :=
  bind (font_paths e) (λ paths,
  inr (scan_families w (sys_platform e) paths (font_files (sys_platform e)) ∅)).

Definition fallback_url : string :=
  "https://github.com/adobe-fonts/source-han-serif/raw/release/OTF/SimplifiedChinese/SourceHanSerifSC-Regular.otf".

Definition temp_dir (e : Env) : string :=
  path_join (sys_platform e) (gettempdir e) "pdf2zh_fonts".

Definition fallback_path (e : Env) : string :=
  path_join (sys_platform e) (temp_dir e) "SourceHanSerifSC-Regular.otf".

(** [get_fallback_font] (lines 117-135).  [os.makedirs] raises when the
    directory cannot be made; a failed download is caught and gives
    [None]. *)
Definition get_fallback_font (e : Env) (w : World)
    : result (option string) * World :=
  if negb (mkdir_ok w) then (inl (OSError (temp_dir e)), w)
  else
    let w := add_file (temp_dir e) w in
    if negb (exists_ w (fallback_path e)) then
      let attempt := length (fetches w) in
      let w := log_fetch fallback_url (fallback_path e) w in
      match network w attempt with
      | Fetched =>
          let w := add_file (fallback_path e) w in
          (inr (if exists_ w (fallback_path e)
                then Some (fallback_path e) else None), w)
      | FetchFailed partial =>
          (inr None, if partial then add_file (fallback_path e) w else w)
      end
    else
      (inr (if exists_ w (fallback_path e)
            then Some (fallback_path e) else None), w).

Definition font_order : list string := ["simsun"; "simhei"; "msyh"; "simkai"].

(** Lines 257-261: the first family of the fixed order that
    [get_system_fonts] found. *)
Fixpoint pick_font (order : list string) (system_fonts : gmap string string)
    : option string :=
  match order with
  | [] => None
  | font_name :: rest =>
      match system_fonts !! font_name with
      | Some path => Some path
      | None => pick_font rest system_fonts
      end
  end.

(** Lines 254-267 of [translate_stream]: the font file to embed. *)
Definition resolve_font (e : Env) (w : World) : result string * World :=
  match get_system_fonts e w with
  | inl err => (inl err, w)
  | inr system_fonts =>
      match pick_font font_order system_fonts with
      | Some font_path => (inr font_path, w)
      | None =>
          match get_fallback_font e w with
          | (inl err, w') => (inl err, w')
          | (inr (Some font_path), w') => (inr font_path, w')
          | (inr None, w') =>
              (inl (RuntimeError
                 "No suitable font found and failed to get fallback font"), w')
          end
      end
  end.

(** A family resolves when one of the platform's directories exists and
    holds one of the family's file names. *)
Definition resolves (w : World) (p : platform) (paths : list string)
    (filenames : list string) : Prop :=
  ∃ font_path filename,
    font_path ∈ paths ∧ filename ∈ filenames ∧
    exists_ w font_path = true ∧
    exists_ w (path_join p font_path filename) = true.

(** A Linux process whose home is [/root] and whose scratch directory is
    [/tmp]. *)
Definition linux_env : Env :=
  mkEnv OtherPlatform ∅
        (λ s, match s with
              | String "~"%char rest => "/root" +:+ rest
              | _ => s
              end)
        "/tmp".

(** A world whose only font is SimSun in [/usr/share/fonts]. *)
Definition font_world : World :=
  mkWorld {[ "/usr/share/fonts"; "/usr/share/fonts/simsun.ttc" ]}
          true (λ _, Fetched) [] [].

End Fonts.

(** ** The font-resource scan: lines 295-311 of [translate_stream] *)

Module Patcher.
Import Py.

(** An indirect object as the document model shows it through
    [xref_get_key] and [xref_set_key]: the (type, value) pair under each
    key path, the paths whose lookup raises (a damaged object), and the
    paths that cannot be written (for instance a path that runs through
    an indirect reference). *)
Record XObj := mkObj {
  entries : gmap string (string * string);
  unreadable : gset string;
  unwritable : gset string;
}.

(** The objects of a document and [xref_length()]. *)
Record Store := mkStore { objs : gmap Z XObj; xref_length : Z }.

Definition null : string * string := ("null", "null").

Definition obj_get_key (o : XObj) (key : string) : result (string * string) :=
  if bool_decide (key ∈ unreadable o)
  then inl (RuntimeError "cannot read object")
  else inr (default null (entries o !! key)).

(** Every value this module writes is an indirect reference ["N 0 R"],
    which a later lookup reports with the type ["xref"].  The store
    keeps one pair per key path, and a write replaces the pair of its
    own path only.  The library prints a dictionary with its entries,
    so after a write it reports a new value (of the same type ["dict"])
    under the paths of the enclosing dictionaries; that value is not
    recomputed here.  The scan reads the type under [label ^ "Font"] and
    the type under [label ^ "Font/" ^ name], never such a value. *)
Definition obj_set_key (o : XObj) (key value : string) : result XObj :=
  if bool_decide (key ∈ unwritable o)
  then inl (ValueError "cannot set key")
  else inr (mkObj (<[ key := ("xref", value) ]> (entries o))
                  (unreadable o) (unwritable o)).

Definition valid_xref (d : Store) (xref : Z) : bool :=
  (1 <=? xref) && (xref <? xref_length d).

(** [doc.xref_get_key(xref, key)]: an absent key, and a free object,
    read as [("null", "null")]. *)
Definition xref_get_key (d : Store) (xref : Z) (key : string)
    : result (string * string) :=
  if negb (valid_xref d xref) then inl (ValueError "bad xref")
  else match objs d !! xref with
       | None => inr null
       | Some o => obj_get_key o key
       end.

(** [doc.xref_set_key(xref, key, value)]. *)
Definition xref_set_key (d : Store) (xref : Z) (key value : string)
    : result Store :=
  if negb (valid_xref d xref) then inl (ValueError "bad xref")
  else match objs d !! xref with
       | None => inl (ValueError "bad xref")
       | Some o =>
           bind (obj_set_key o key value) (λ o',
           inr (mkStore (<[ xref := o' ]> (objs d)) (xref_length d)))
       end.

(** Lines 303-309, the body of the loop over [font_list] for one font. *)
Definition bind_font (font_id : gmap string Z) (xref : Z) (label : string)
    (font : string * string) (d : Store) : result Store :=
  bind (xref_get_key d xref (label +:+ "Font/" +:+ font.1)) (λ font_exist,
  if String.eqb font_exist.1 "null" then
    match font_id !! font.1 with
    | None => inl (KeyError font.1)
    | Some id =>
        xref_set_key d xref (label +:+ "Font/" +:+ font.1)
                     (pretty id +:+ " 0 R")
    end
  else inr d).

(** Lines 302-309.  The document is changed in place, so what was
    written before an exception stays written. *)
Fixpoint bind_fonts (font_id : gmap string Z) (xref : Z) (label : string)
    (font_list : list (string * string)) (d : Store) : result unit * Store :=
  match font_list with
  | [] => (inr tt, d)
  | font :: rest =>
      match bind_font font_id xref label font d with
      | inl e => (inl e, d)
      | inr d' => bind_fonts font_id xref label rest d'
      end
  end.

(** Lines 300-309, the body of the [try]. *)
Definition inspect (font_id : gmap string Z) (font_list : list (string * string))
    (xref : Z) (label : string) (d : Store) : result unit * Store :=
  match xref_get_key d xref (label +:+ "Font") with
  | inl e => (inl e, d)
  | inr font_res =>
      if String.eqb font_res.1 "dict"
      then bind_fonts font_id xref label font_list d
      else (inr tt, d)
  end.

(** [CancelledError] derives from [BaseException]; the others from
    [Exception]. *)
Definition is_Exception (e : exn) : bool :=
  match e with
  | CancelledError _ => false
  | _ => true
  end.

(** [try: ... except Exception: pass] (lines 299-311). *)
Definition swallow (r : result unit * Store) : result unit * Store :=
  match r with
  | (inl e, d) => if is_Exception e then (inr tt, d) else (inl e, d)
  | (inr u, d) => (inr u, d)
  end.

(** The scan's state: the document and the (xref, label) pairs whose
    [try] block has been entered so far. *)
Record Scan := mkScan { doc : Store; inspected : list (Z * string) }.

(** Line 298: the loop over the two labels for one object. *)
Fixpoint scan_labels (font_id : gmap string Z) (font_list : list (string * string))
    (xref : Z) (labels : list string) (s : Scan) : result unit * Scan :=
  match labels with
  | [] => (inr tt, s)
  | label :: rest =>
      let seen := inspected s ++ [(xref, label)] in
      match swallow (inspect font_id font_list xref label (doc s)) with
      | (inl e, d) => (inl e, mkScan d seen)
      | (inr _, d) => scan_labels font_id font_list xref rest (mkScan d seen)
      end
  end.

Definition labels : list string := ["Resources/"; ""].

(** Line 297: the loop over the identifiers. *)
Fixpoint scan_xrefs (font_id : gmap string Z) (font_list : list (string * string))
    (xrefs : list Z) (s : Scan) : result unit * Scan :=
  match xrefs with
  | [] => (inr tt, s)
  | xref :: rest =>
      match scan_labels font_id font_list xref labels s with
      | (inl e, s') => (inl e, s')
      | (inr _, s') => scan_xrefs font_id font_list rest s'
      end
  end.

(** Lines 296-311: [range(1, xreflen)] is [seqZ 1 (xreflen - 1)]. *)
Definition patch_resources (font_id : gmap string Z)
    (font_list : list (string * string)) (d : Store) : result unit * Scan :=
  scan_xrefs font_id font_list (seqZ 1 (xref_length d - 1)) (mkScan d []).

(** Line 270: the one font of [translate_stream]. *)
Definition font_list (font_path : string) : list (string * string) :=
  [("CustomFont", font_path)].

(** The effect of one [try] block on the object it addresses. *)
Definition inspect_obj (font_id : gmap string Z) (name label : string)
    (o : XObj) : XObj :=
  match obj_get_key o (label +:+ "Font") with
  | inl _ => o
  | inr font_res =>
      if String.eqb font_res.1 "dict" then
        match obj_get_key o (label +:+ "Font/" +:+ name) with
        | inl _ => o
        | inr font_exist =>
            if String.eqb font_exist.1 "null" then
              match font_id !! name with
              | None => o
              | Some id =>
                  match obj_set_key o (label +:+ "Font/" +:+ name)
                                    (pretty id +:+ " 0 R") with
                  | inl _ => o
                  | inr o' => o'
                  end
              end
            else o
        end
      else o
  end.

(** The effect of the whole scan on one object of the range. *)
Definition patch_obj (font_id : gmap string Z) (name : string) (o : XObj) : XObj :=
  inspect_obj font_id name "" (inspect_obj font_id name "Resources/" o).

(** The object with [label ^ "Font/" ^ name] bound to [value]. *)
Definition bound (name label value : string) (o : XObj) : XObj :=
  mkObj (<[ label +:+ "Font/" +:+ name := ("xref", value) ]> (entries o))
        (unreadable o) (unwritable o).

(** The guards a [try] block passes before it writes: the font
    dictionary can be read and is a dictionary, the name can be read
    and reads as ["null"], and the name can be written. *)
Definition bindable (name label : string) (o : XObj) : bool :=
  negb (bool_decide (label +:+ "Font" ∈ unreadable o))
  && String.eqb (default null (entries o !! (label +:+ "Font"))).1 "dict"
  && negb (bool_decide (label +:+ "Font/" +:+ name ∈ unreadable o))
  && String.eqb (default null (entries o !! (label +:+ "Font/" +:+ name))).1 "null"
  && negb (bool_decide (label +:+ "Font/" +:+ name ∈ unwritable o)).

(** A document with a damaged object 1, a page object 2 whose font
    dictionary lacks the font, and an object 3 that already binds it. *)
Definition sample_store : Store :=
  mkStore
    {[ 1 := mkObj ∅ {[ "Resources/Font"; "Font" ]} ∅;
       2 := mkObj {[ "Resources/Font" := ("dict", "<<>>") ]} ∅ ∅;
       3 := mkObj {[ "Font" := ("dict", "<<>>");
                     "Font/CustomFont" := ("xref", "7 0 R") ]} ∅ ∅ ]}
    4.

End Patcher.

(** ** The page sweep: [translate_patch] (lines 143-235) *)

Module Sweep.
Import Py Mask Patcher.

(** The arguments the sweep looks at: the page filter, whether a
    progress callback was passed, and the cancellation event, given by
    what [is_set()] answers when page [pageno] is reached. *)
Record Config := mkConfig {
  pages : option (list Z);
  callback : bool;
  cancellation_event : option (nat → bool);
}.

(** The collaborators of the sweep, whose code is in other modules
    ([pdf2zh.doclayout], [pdf2zh.pdfinterp], [pdf2zh.converter], the PDF
    library) and is taken as given.  [detect] stands for lines 199-203
    (the pixmap of [doc_zh[pageno]], its height and width, and the
    detector's answer); [rewrite] for lines 228-232 (the new content
    object and [interpreter.process_page], which reads the layout masks
    and adds to [obj_patch]).  Either may raise. *)
Record Collaborators := mkCollab {
  detect : nat → Store → result (nat * nat * YoloResult);
  rewrite : nat → gmap nat (list (list Z)) → Store → gmap Z string →
            result (Store * gmap Z string);
}.

(** The sweep's state: [total] and [n] of the progress bar, the
    [layout] dictionary, [obj_patch], the target document and the
    world. *)
Record State := mkState {
  bar_total : nat;
  bar_n : nat;
  layout : gmap nat (list (list Z));
  obj_patch : gmap Z string;
  doc_zh : Store;
  world : World;
}.

(** Python truthiness of [pages]: neither [None] nor empty. *)
Definition truthy (pages : option (list Z)) : bool :=
  match pages with
  | Some (_ :: _) => true
  | _ => false
  end.

(** [pages and (pageno not in pages)] (line 193). *)
Definition filtered_out (cfg : Config) (pageno : nat) : bool :=
  truthy (pages cfg)
  && negb (bool_decide (Z.of_nat pageno ∈ default [] (pages cfg))).

(** [cancellation_event and cancellation_event.is_set()] (line 191). *)
Definition cancelled (cfg : Config) (pageno : nat) : bool :=
  match cancellation_event cfg with
  | Some is_set => is_set pageno
  | None => false
  end.

(** [progress.update()] and [if callback: callback(progress)]
    (lines 195-197). *)
Definition advance (cfg : Config) (st : State) : State :=
  let n := S (bar_n st) in
  mkState (bar_total st) n (layout st) (obj_patch st) (doc_zh st)
          (if callback cfg then log_callback n (world st) else world st).

(** One turn of the loop (lines 191-232). *)
Definition page_step (cfg : Config) (col : Collaborators) (pageno : nat)
    (st : State) : result unit * State :=
  if cancelled cfg pageno then (inl (CancelledError "task cancelled"), st)
  else if filtered_out cfg pageno then (inr tt, st)
  else
    let st := advance cfg st in
    match detect col pageno (doc_zh st) with
    | inl e => (inl e, st)
    | inr (pix_height, pix_width, page_layout) =>
        match layout_mask pix_height pix_width page_layout with
        | None => (inl (KeyError "names"), st)
        | Some box =>
            let layout' := <[ pageno := box ]> (layout st) in
            let st := mkState (bar_total st) (bar_n st) layout'
                              (obj_patch st) (doc_zh st) (world st) in
            match rewrite col pageno layout' (doc_zh st) (obj_patch st) with
            | inl e => (inl e, st)
            | inr (doc', patch') =>
                (inr tt, mkState (bar_total st) (bar_n st) layout' patch'
                                 doc' (world st))
            end
        end
    end.

(** The loop over [enumerate(PDFPage.create_pages(doc))]. *)
Fixpoint sweep (cfg : Config) (col : Collaborators) (pagenos : list nat)
    (st : State) : result unit * State :=
  match pagenos with
  | [] => (inr tt, st)
  | pageno :: rest =>
      match page_step cfg col pageno st with
      | (inl e, st') => (inl e, st')
      | (inr _, st') => sweep cfg col rest st'
      end
  end.

(** Lines 182-185. *)
Definition total_pages (cfg : Config) (page_count : nat) : nat :=
  if truthy (pages cfg) then length (default [] (pages cfg)) else page_count.

(** [translate_patch] on a document of [page_count] pages. *)
Definition translate_patch (cfg : Config) (col : Collaborators)
    (page_count : nat) (d : Store) (w : World)
    : result (gmap Z string) * State :=
  let st := mkState (total_pages cfg page_count) 0 ∅ ∅ d w in
  match sweep cfg col (seq 0 page_count) st with
  | (inl e, st') => (inl e, st')
  | (inr _, st') => (inr (obj_patch st'), st')
  end.

(** The pages the filter lets through. *)
Definition selected (cfg : Config) (page_count : nat) : list nat :=
  List.filter (λ pageno, negb (filtered_out cfg pageno)) (seq 0 page_count).

(** Collaborators that find no boxes and rewrite nothing. *)
Definition idle : Collaborators :=
  mkCollab (λ _ _, inr (2%nat, 2%nat, mkResult [] ∅))
           (λ _ _ d patch, inr (d, patch)).

Definition empty_world : World := mkWorld ∅ true (λ _, Fetched) [] [].

Definition empty_store : Store := mkStore ∅ 1.

End Sweep.

(** ** The bilingual document: lines 323-325 of [translate_stream] *)

Module Dual.
Import Py.

Definition insert_at {A} (pos : nat) (x : A) (l : list A) : list A :=
  take pos l ++ x :: drop pos l.

Definition delete_at {A} (i : nat) (l : list A) : list A :=
  take i l ++ drop (S i) l.

(** [Document.move_page(pno, to)] of the PDF library, on the page list
    of a document: page [pno] is put in front of page [to] ([-1]: behind
    the last page); the page reference is inserted at the target
    position and the old reference is deleted, one place further on when
    it lies behind the insertion point.  Page numbers out of range raise
    [ValueError]. *)
Definition move_page {A} (l : list A) (pno to : Z) : result (list A) :=
  let page_count := Z.of_nat (length l) in
  if negb ((0 <=? pno) && (pno <? page_count)
           && (-1 <=? to) && (to <? page_count))
  then inl (ValueError "bad page number(s)")
  else
    let '(nb, before) :=
      if to =? -1 then (page_count - 1, false) else (to, true) in
    let i1 := Z.to_nat pno in
    let pos := if (before : bool) then Z.to_nat nb else S (Z.to_nat nb) in
    match l !! i1 with
    | None => inl (ValueError "bad page number(s)")
    | Some page1 =>
        let l' := insert_at pos page1 l in
        inr (if (i1 <? pos)%nat then delete_at i1 l' else delete_at (S i1) l')
    end.

(** [doc_en.insert_file(doc_zh)]: the pages of [doc_zh] are appended. *)
Definition insert_file {A} (doc_en doc_zh : list A) : list A := doc_en ++ doc_zh.

(** Lines 324-325, from loop index [id] on, [todo] turns left. *)
Fixpoint move_pages {A} (page_count : nat) (id : nat) (todo : nat)
    (l : list A) : result (list A) :=
  match todo with
  | O => inr l
  | S todo' =>
      bind (move_page l (Z.of_nat page_count + Z.of_nat id)
                      (Z.of_nat id * 2 + 1))
           (move_pages page_count (S id) todo')
  end.

(** Lines 323-325. *)
Definition build_dual {A} (page_count : nat) (doc_en doc_zh : list A)
    : result (list A) :=
  move_pages page_count 0 page_count (insert_file doc_en doc_zh).

(** [orig_1, translated_1, orig_2, translated_2, ...]. *)
Fixpoint interleave {A} (l1 l2 : list A) : list A :=
  match l1, l2 with
  | x :: l1', y :: l2' => x :: y :: interleave l1' l2'
  | _, _ => []
  end.

End Dual.

(** ** [translate_stream] (lines 237-327) *)

Module Stream.
Import Py Fonts Patcher Sweep Dual.

(** A document: its pages in order, each named by the number of its
    page object, and its objects. *)
Record Document := mkDoc { doc_pages : list Z; store : Store }.

(** The document model's operations that [translate_stream] calls and
    this file does not look into: [Document(stream=...)],
    [page.insert_font], [doc.update_stream], and, for [insert_file], the
    copy made in [doc_en] of a page of [doc_zh] and the objects of
    [doc_en] afterwards. *)
Record Library := mkLibrary {
  open_document : string → result Document;
  insert_font : Store → nat → string → string → result (Z * Store);
  update_stream : Store → Z → string → result Store;
  graft : Document → Z → Z;
  merge_store : Store → Document → Store;
}.

(** Lines 292-293 for one page. *)
Fixpoint register_page (lib : Library) (pageno : nat)
    (fonts : list (string * string)) (font_id : gmap string Z) (d : Store)
    : result (gmap string Z * Store) :=
  match fonts with
  | [] => inr (font_id, d)
  | font :: rest =>
      bind (insert_font lib d pageno font.1 font.2) (λ '(xref, d'),
      register_page lib pageno rest (<[ font.1 := xref ]> font_id) d')
  end.

(** Lines 290-293. *)
Fixpoint register_fonts (lib : Library) (fonts : list (string * string))
    (pagenos : list nat) (font_id : gmap string Z) (d : Store)
    : result (gmap string Z * Store) :=
  match pagenos with
  | [] => inr (font_id, d)
  | pageno :: rest =>
      bind (register_page lib pageno fonts font_id d) (λ '(font_id', d'),
      register_fonts lib fonts rest font_id' d')
  end.

(** Lines 319-320. *)
Fixpoint apply_patches (lib : Library) (patches : list (Z * string)) (d : Store)
    : result Store :=
  match patches with
  | [] => inr d
  | (obj_id, ops_new) :: rest =>
      bind (update_stream lib d obj_id ops_new) (apply_patches lib rest)
  end.

(** [translate_stream]: the mono and the dual document, or the
    exception that ended the call, and the world afterwards. *)
Definition translate_stream (e : Env) (lib : Library) (col : Collaborators)
    (cfg : Config) (stream : string) (w : World)
    : result (Document * Document) * World :=
  match resolve_font e w with
  | (inl err, w1) => (inl err, w1)
  | (inr font_path, w1) =>
  match open_document lib stream with
  | inl err => (inl err, w1)
  | inr doc_en =>
  let doc_zh := doc_en in
  let page_count := length (doc_pages doc_zh) in
  match register_fonts lib (font_list font_path) (seq 0 page_count) ∅
                       (store doc_zh) with
  | inl err => (inl err, w1)
  | inr (font_id, d1) =>
  match patch_resources font_id (font_list font_path) d1 with
  | (inl err, _) => (inl err, w1)
  | (inr _, scan) =>
  match translate_patch cfg col page_count (doc scan) w1 with
  | (inl err, st) => (inl err, world st)
  | (inr obj_patch, st) =>
  match apply_patches lib (map_to_list obj_patch) (Sweep.doc_zh st) with
  | inl err => (inl err, world st)
  | inr d3 =>
  let mono := mkDoc (doc_pages doc_zh) d3 in
  match build_dual page_count (doc_pages doc_en)
                   (graft lib mono <$> doc_pages mono) with
  | inl err => (inl err, world st)
  | inr dual_pages =>
      (inr (mono, mkDoc dual_pages (merge_store lib (store doc_en) mono)),
       world st)
  end end end end end end end.

(** A library that opens every stream as a ten-page document. *)
Definition ten_pages : Library :=
  mkLibrary (λ _, inr (mkDoc (seqZ 1 10) (mkStore ∅ 11)))
            (λ d _ _ _, inr (1, d))
            (λ d _ _, inr d)
            (λ _ p, p + 100)
            (λ d _, d).

End Stream.

(** ** [check_files] and the file loop of [translate] *)

Module Files.
Import Py.

(** [s.startswith(prefix)]. *)
Definition startswith (s prefix : string) : bool := String.prefix prefix s.

(** [check_files] (lines 137-141). *)
Definition check_files (w : World) (files : list string) : list string :=
  let files := List.filter (λ f, negb (startswith f "http://")) files in
  let files := List.filter (λ f, negb (startswith f "https://")) files in
  let missing_files := List.filter (λ file, negb (exists_ w file)) files in
  missing_files.

(** The Python objects line 409 compares: a string, or the class
    [str]. *)
Inductive pyobj := PyStr (s : string) | PyClassStr.

(** [a is b]: object identity.  A string is never the class [str]; two
    strings are taken to be the same object when they are the same
    entry of the list. *)
Definition py_is (a b : pyobj) : bool :=
  match a, b with
  | PyClassStr, PyClassStr => true
  | _, _ => false
  end.

(** What the loop body does with a file before it reads the bytes. *)
Inductive action :=
| Download (url : string)
| ConvertToPdfa (path : string)
| OpenLocal (path : string).

(** Lines 409-434 for one entry of [files]; [tmp_name] is the name of
    the temporary file a download would be written to. *)
Definition file_actions (compatible : bool) (tmp_name file : string)
    : list action :=
  let '(fetched, file) :=
    if py_is (PyStr file) PyClassStr
       && (startswith file "http://" || startswith file "https://")
    then ([Download file], tmp_name) else ([], file) in
  fetched ++ [if compatible then ConvertToPdfa file else OpenLocal file].

(** Lines 395-434 of [translate]: the checks before the loop and, per
    file, the way its bytes are obtained. *)
Definition translate_inputs (w : World) (compatible : bool) (tmp_name : string)
    (files : list string) : result (list (list action)) :=
  match files with
  | [] => inl (PDFValueError "No files to process.")
  | _ =>
      match check_files w files with
      | [] => inr (file_actions compatible tmp_name <$> files)
      | _ => inl (PDFValueError "Some files do not exist.")
      end
  end.

End Files.

(** ** The layout mask, cell by cell *)

Module MaskCells.
Import Mask.

(** Is the cell [(r, c)] in the slice a box assigns (lines 216, 226)? *)
Definition in_rect (h w : Z) (d : YoloBox) (r c : nat) : bool :=
  let '(x0, y0, x1, y1) := rect h w d in
  (y0 <=? Z.of_nat r) && (Z.of_nat r <? y1)
  && (x0 <=? Z.of_nat c) && (Z.of_nat c <? x1).

(** What the first loop leaves in one cell that held [v], for the boxes
    [bs] enumerated from [i] on. *)
Fixpoint translatable_value (nm : gmap Z string) (h w i : Z)
    (bs : list YoloBox) (r c : nat) (v : Z) : Z :=
  match bs with
  | [] => v
  | d :: bs' =>
      translatable_value nm h w (i + 1) bs' r c
        (if negb (default false (preserved nm d)) && in_rect h w d r c
         then i + 2 else v)
  end.

(** What the second loop leaves in one cell that held [v]. *)
Fixpoint preserved_value (nm : gmap Z string) (h w : Z)
    (bs : list YoloBox) (r c : nat) (v : Z) : Z :=
  match bs with
  | [] => v
  | d :: bs' =>
      preserved_value nm h w bs' r c
        (if default false (preserved nm d) && in_rect h w d r c
         then 0 else v)
  end.

(** Is the cell [(r, c)] inside the rectangle spanned by a box's
    clamped, one-pixel-expanded coordinates (lines 220-225)?  The four
    coordinates are clipped to [0, w - 1] and [0, h - 1], the indices of
    the mask's columns and rows, and the rectangle reaches from the
    corner [(x0, y0)] to the corner [(x1, y1)], both included. *)
Definition in_rectangle (h w : Z) (d : YoloBox) (r c : nat) : bool :=
  let '(x0, y0, x1, y1) := rect h w d in
  (y0 <=? Z.of_nat r) && (Z.of_nat r <=? y1)
  && (x0 <=? Z.of_nat c) && (Z.of_nat c <=? x1).

(** A figure that covers the whole 4x4 page. *)
Definition page_figure : YoloBox := mkBox (0#1, 0#1, 4#1, 4#1)%Q (1#1)%Q.
Definition page_figure_layout : YoloResult :=
  mkResult [page_figure] sample_names.

(** A detection whose class index is not in the name table. *)
Definition missing_class : YoloResult :=
  mkResult [text_box; mkBox (0#1, 0#1, 1#1, 1#1)%Q (7#1)%Q] sample_names.

(** Two overlapping text blocks on a 6x6 page. *)
Definition two_blocks : YoloResult :=
  mkResult [mkBox (0#1, 0#1, 3#1, 3#1)%Q (0#1)%Q;
            mkBox (2#1, 0#1, 4#1, 2#1)%Q (0#1)%Q] sample_names.

End MaskCells.

(** ** Sample environments for the font lookup *)

Module FontSamples.
Import Py Fonts.

(** Fonts in two directories: SimHei in the system directory, SimSun
    (both file names) only in the user's. *)
Definition two_dirs_world : World :=
  mkWorld {[ "/usr/share/fonts"; "/usr/share/fonts/simhei.ttf";
             "/root/.fonts"; "/root/.fonts/simsun.ttc";
             "/root/.fonts/simsun.ttf" ]}
          true (λ _, Fetched) [] [].

(** A Windows process without [LOCALAPPDATA]. *)
Definition bare_windows : Env :=
  mkEnv Win32 {[ "WINDIR" := "C:\Windows" ]} (λ s, s) "C:\Temp".

(** No fonts, and a network whose first download breaks off after the
    target file was created. *)
Definition broken_network : World :=
  mkWorld ∅ true
          (λ n, match n with O => FetchFailed true | _ => Fetched end) [] [].

End FontSamples.

(** ** Sample collaborators for the sweep *)

Module SweepSamples.
Import Py Mask Patcher Sweep.

(** A detector that fails on page 1 and finds nothing elsewhere. *)
Definition fails_on_page_1 : Collaborators :=
  mkCollab (λ pageno _,
              if (pageno =? 1)%nat then inl (OtherError "detector")
              else inr (2%nat, 2%nat, mkResult [] ∅))
           (λ _ _ d patch, inr (d, patch)).

(** A library whose documents have three pages and whose
    [insert_font] returns a fresh object number per page. *)
Definition three_pages : Stream.Library :=
  Stream.mkLibrary
    (λ _, inr (Stream.mkDoc [4; 5; 6] (mkStore ∅ 7)))
    (λ d pageno _ _,
       inr (xref_length d, mkStore (objs d) (xref_length d + 1)))
    (λ d _ _, inr d)
    (λ _ p, p + 100)
    (λ d _, d).

End SweepSamples.

(** ** [convert_to_pdfa] (lines 329-375) *)

Module Pdfa.
Import Py.

(** A document as [pikepdf] shows it to [convert_to_pdfa]: the
    document information dictionary, the XMP metadata, and
    [Root.OutputIntents] ([None] when the key is absent). *)
Record Pdf := mkPdf {
  docinfo : gmap string string;
  xmp : gmap string string;
  output_intents : option (list (gmap string string));
}.

(** The library calls the function makes: [Pdf.open] on the bytes of
    the input file, [meta.load_from_docinfo], what leaving the block
    [with pdf.open_metadata() as meta] does, and the bytes
    [pdf.save(..., linearize=True)] writes.  [open_metadata] is called
    with its defaults [set_pikepdf_as_editor=True] and
    [update_docinfo=True]: when the block is left the library stamps the
    XMP with [xmp:MetadataDate] (the time of the edit, [metadata_date])
    and [pdf:Producer] (its own name and version, [producer]), and then
    rewrites the standard fields of the document information from the
    XMP ([update_docinfo]). *)
Record Pikepdf := mkPikepdf {
  parse : string → result Pdf;
  load_from_docinfo : gmap string string → gmap string string →
                      gmap string string;
  metadata_date : string;
  producer : string;
  update_docinfo : gmap string string → gmap string string →
                   gmap string string;
  save : Pdf → string;
}.

(** Lines 357-365. *)
Definition output_intent : gmap string string :=
  {[ "/Type" := "/OutputIntent";
     "/S" := "/GTS_PDFA1";
     "/OutputConditionIdentifier" := "sRGB IEC61966-2.1";
     "/RegistryName" := "http://www.color.org";
     "/Info" := "sRGB IEC61966-2.1" ]}.

(** Lines 343-349: the local dictionary [metadata]. *)
Definition metadata (pdf : Pdf) : gmap string string :=
  {[ "pdfa_part" := "2";
     "pdfa_conformance" := "B";
     "title" := default "" (docinfo pdf !! "/Title");
     "author" := default "" (docinfo pdf !! "/Author");
     "creator" := "PDF Math Translate" ]}.

(** Leaving the [with] block of lines 351-354: the two stamps, then the
    document information brought in line with the XMP. *)
Definition close_metadata (pk : Pikepdf) (meta info : gmap string string)
    : gmap string string * gmap string string :=
  let meta := <[ "xmp:MetadataDate" := metadata_date pk ]> meta in
  let meta := <[ "pdf:Producer" := producer pk ]> meta in
  (meta, update_docinfo pk meta info).

(** Lines 351-371: what the function does to the opened document. *)
Definition mark_pdfa (pk : Pikepdf) (pdf : Pdf) : Pdf :=
  let meta := load_from_docinfo pk (docinfo pdf) (xmp pdf) in
  let meta := <[ "pdfaid:part" := default "" (metadata pdf !! "pdfa_part") ]> meta in
  let meta :=
    <[ "pdfaid:conformance" :=
         default "" (metadata pdf !! "pdfa_conformance") ]> meta in
  let '(meta, info) := close_metadata pk meta (docinfo pdf) in
  mkPdf info meta
        (match output_intents pdf with
         | None => Some [output_intent]
         | Some intents => Some (intents ++ [output_intent])
         end).

(** A library that reads every file as the same empty document, copies
    nothing from the document information into the XMP, and writes the
    producer back as the only standard field. *)
Definition plain_pikepdf : Pikepdf :=
  mkPikepdf (λ _, inr (mkPdf ∅ ∅ None)) (λ _ meta, meta)
            "2024-01-01T00:00:00+00:00" "pikepdf 9.0.0"
            (λ meta info,
               match meta !! "pdf:Producer" with
               | Some p => <[ "/Producer" := p ]> info
               | None => delete "/Producer" info
               end)
            (λ _, "%PDF-1.7").

End Pdfa.

(** ** [translate] (lines 377-454) *)

Module Translate.
Import Py Fonts Files Pdfa.

(** The disk: the world, with its set of existing paths, and the bytes
    of the regular files among them. *)
Record Disk := mkDisk { world : World; contents : gmap string string }.

(** What [translate] takes from the operating system and the
    libraries: [os.path.basename], [os.path.splitext],
    [str(Path(output) / name)], the name a new
    [tempfile.NamedTemporaryFile] with a given suffix gets, whether
    [open(path, "wb")] succeeds, [requests.get] (status code and
    content, or an exception), the PDF library behind [convert_to_pdfa]
    and [doc.write]. *)
Record OS := mkOS {
  basename : string → string;
  splitext : string → string * string;
  path_div : string → string → string;
  tmp_name : Disk → string → string;
  can_write : string → bool;
  http_get : string → result (nat * string);
  pikepdf : Pikepdf;
  serialize : Stream.Document → string;
}.

Definition set_world (w : World) (d : Disk) : Disk := mkDisk w (contents d).

Definition remove_file (path : string) (w : World) : World :=
  mkWorld (files w ∖ {[ path ]}) (mkdir_ok w) (network w) (fetches w)
          (callback_log w).

(** [open(path, "rb").read()]. *)
Definition read_file (d : Disk) (path : string) : result string :=
  if exists_ (world d) path then
    match contents d !! path with
    | Some bytes => inr bytes
    | None => inl (OSError path)
    end
  else inl (OSError path).

(** [open(path, "wb")]: the file is created or emptied. *)
Definition open_wb (os : OS) (path : string) (d : Disk) : result Disk :=
  if can_write os path
  then inr (mkDisk (add_file path (world d)) (<[ path := "" ]> (contents d)))
  else inl (OSError path).

(** Writing to, and closing, a file opened with [open_wb]. *)
Definition write_bytes (path bytes : string) (d : Disk) : Disk :=
  mkDisk (world d) (<[ path := bytes ]> (contents d)).

(** [os.unlink(path)]. *)
Definition unlink (path : string) (d : Disk) : result Disk :=
  if exists_ (world d) path
  then inr (mkDisk (remove_file path (world d)) (delete path (contents d)))
  else inl (OSError path).

(** [tempfile.NamedTemporaryFile(suffix=..., delete=False)]: the new
    file exists, empty, from the start. *)
Definition named_temporary_file (os : OS) (suffix : string) (d : Disk)
    : string * Disk :=
  let name := tmp_name os d suffix in
  (name, mkDisk (add_file name (world d)) (<[ name := "" ]> (contents d))).

(** [convert_to_pdfa(input_path, output_path)] on the disk. *)
Definition convert_to_pdfa (os : OS) (input_path output_path : string)
    (d : Disk) : result unit * Disk :=
  match read_file d input_path with
  | inl err => (inl err, d)
  | inr bytes =>
      match parse (pikepdf os) bytes with
      | inl err => (inl err, d)
      | inr pdf =>
          match open_wb os output_path d with
          | inl err => (inl err, d)
          | inr d' =>
              (inr tt,
               write_bytes output_path
                 (save (pikepdf os) (mark_pdfa (pikepdf os) pdf)) d')
          end
      end
  end.

(** Lines 409-423: the download of an online file. *)
Definition download (os : OS) (file : string) (d : Disk)
    : result string * Disk :=
  match http_get os file with
  | inl err => (inl (PDFValueError "Errors occur in downloading the PDF file."), d)
  | inr (status_code, content) =>
      if (status_code =? 200)%nat then
        let '(name, d') := named_temporary_file os ".pdf" d in
        (inr name, write_bytes name content d')
      else if (400 <=? status_code)%nat && (status_code <? 600)%nat
      then (inl (PDFValueError "Errors occur in downloading the PDF file."), d)
      else (inr file, d)
  end.

(** Lines 427-436: the bytes to translate.  In PDF/A mode the
    temporary file is unlinked while it is still open, which a POSIX
    system allows; that is the behaviour modelled. *)
Definition raw_bytes (os : OS) (compatible : bool) (file : string) (d : Disk)
    : result string * Disk :=
  if compatible then
    let '(tmp_pdfa, d1) := named_temporary_file os "-pdfa.pdf" d in
    match convert_to_pdfa os file tmp_pdfa d1 with
    | (inl err, d2) => (inl err, d2)
    | (inr _, d2) =>
        match read_file d2 tmp_pdfa with
        | inl err => (inl err, d2)
        | inr s_raw =>
            match unlink tmp_pdfa d2 with
            | inl err => (inl err, d2)
            | inr d3 => (inr s_raw, d3)
            end
        end
    end
  else
    match read_file d file with
    | inl err => (inl err, d)
    | inr s_raw => (inr s_raw, d)
    end.

(** Lines 444-451: the two output files. *)
Definition write_outputs (os : OS) (file_mono file_dual s_mono s_dual : string)
    (d : Disk) : result unit * Disk :=
  match open_wb os file_mono d with
  | inl err => (inl err, d)
  | inr d1 =>
      match open_wb os file_dual d1 with
      | inl err => (inl err, d1)
      | inr d2 =>
          (inr tt, write_bytes file_dual s_dual
                     (write_bytes file_mono s_mono d2))
      end
  end.

(** The arguments of [translate] that reach [translate_stream] and its
    collaborators. *)
Record Job := mkJob {
  env : Env;
  library : Stream.Library;
  collaborators : Sweep.Collaborators;
  config : Sweep.Config;
  output : string;
  compatible : bool;
}.

(** Lines 409-452: the loop body for one file. *)
Definition translate_file (os : OS) (job : Job) (file : string) (d : Disk)
    : result (string * string) * Disk :=
  match (if py_is (PyStr file) PyClassStr
            && (startswith file "http://" || startswith file "https://")
         then download os file d else (inr file, d)) with
  | (inl err, d) => (inl err, d)
  | (inr file, d) =>
  let filename := (splitext os (basename os file)).1 in
  match raw_bytes os (compatible job) file d with
  | (inl err, d) => (inl err, d)
  | (inr s_raw, d) =>
  match (if startswith file (gettempdir (env job))
         then unlink file d else inr d) with
  | inl err => (inl err, d)
  | inr d =>
  match Stream.translate_stream (env job) (library job) (collaborators job)
                                (config job) s_raw (world d) with
  | (inl err, w) => (inl err, set_world w d)
  | (inr (mono, dual), w) =>
  let d := set_world w d in
  let file_mono := path_div os (output job) (filename +:+ "-mono.pdf") in
  let file_dual := path_div os (output job) (filename +:+ "-dual.pdf") in
  match write_outputs os file_mono file_dual
                      (serialize os mono) (serialize os dual) d with
  | (inl err, d) => (inl err, d)
  | (inr _, d) => (inr (file_mono, file_dual), d)
  end end end end end.

(** Lines 406-454: the loop over [files]. *)
Fixpoint translate_files (os : OS) (job : Job) (files : list string)
    (result_files : list (string * string)) (d : Disk)
    : result (list (string * string)) * Disk :=
  match files with
  | [] => (inr result_files, d)
  | file :: rest =>
      match translate_file os job file d with
      | (inl err, d') => (inl err, d')
      | (inr names, d') =>
          translate_files os job rest (result_files ++ [names]) d'
      end
  end.

(** [translate]. *)
Definition translate (os : OS) (job : Job) (files : list string) (d : Disk)
    : result (list (string * string)) * Disk :=
  match files with
  | [] => (inl (PDFValueError "No files to process."), d)
  | _ =>
      match check_files (world d) files with
      | [] => translate_files os job files [] d
      | _ => (inl (PDFValueError "Some files do not exist."), d)
      end
  end.

(** [posixpath.basename]: what follows the last ["/"]. *)
Fixpoint basename_from (l acc : list Ascii.ascii) : list Ascii.ascii :=
  match l with
  | [] => acc
  | c :: l' =>
      if bool_decide (c = "/"%char) then basename_from l' []
      else basename_from l' (acc ++ [c])
  end.

Definition posix_basename (p : string) : string :=
  string_of_list_ascii (basename_from (list_ascii_of_string p) []).

(** The last position of [c] in [l], counted from [i]. *)
Fixpoint rfind_from (c : Ascii.ascii) (l : list Ascii.ascii) (i : nat)
    (found : option nat) : option nat :=
  match l with
  | [] => found
  | x :: l' =>
      rfind_from c l' (S i) (if bool_decide (x = c) then Some i else found)
  end.

(** [posixpath.splitext]: the extension starts at the last dot of the
    last component, unless only dots precede it there. *)
Definition posix_splitext (p : string) : string * string :=
  let l := list_ascii_of_string p in
  let start :=
    match rfind_from "/"%char l 0 None with
    | Some i => S i
    | None => O
    end in
  match rfind_from "."%char l 0 None with
  | Some dot =>
      if bool_decide (start ≤ dot)%nat
         && negb (forallb (λ c, bool_decide (c = "."%char))
                          (take (dot - start) (drop start l)))
      then (string_of_list_ascii (take dot l),
            string_of_list_ascii (drop dot l))
      else (p, "")
  | None => (p, "")
  end.

(** A POSIX system for the examples: temporary files are
    [/tmp/tmp<suffix>], every path can be written, and the network is
    down. *)
Definition sample_os : OS :=
  mkOS posix_basename posix_splitext (λ dir name, dir +:+ "/" +:+ name)
       (λ _ suffix, "/tmp/tmp" +:+ suffix) (λ _, true)
       (λ _, inl (OtherError "network")) plain_pikepdf (λ _, "%PDF").

Definition sample_job : Job :=
  mkJob linux_env Stream.ten_pages Sweep.idle (Sweep.mkConfig None false None)
        "out" false.

(** A disk with the SimSun font and one PDF in the scratch directory. *)
Definition sample_disk : Disk :=
  mkDisk (mkWorld {[ "/usr/share/fonts"; "/usr/share/fonts/simsun.ttc";
                     "/tmp/paper.pdf" ]}
                  true (λ _, Fetched) [] [])
         {[ "/tmp/paper.pdf" := "%PDF-1.4" ]}.

End Translate.

(** ** Key paths of [xref_get_key] and [xref_set_key] *)

Module KeyPaths.

(** PDF path notation: the key ["Resources/Font/CustomFont"] names the
    entry [CustomFont] of the dictionary [Font] of the dictionary
    [Resources].  [split_path s cur] cuts [s] at every ["/"], [cur]
    being the name read so far. *)
Fixpoint split_path (s cur : string) : list string :=
  match s with
  | EmptyString => [cur]
  | String a s' =>
      if Ascii.eqb a "/" then cur :: split_path s' ""
      else split_path s' (cur +:+ String a "")
  end.

Definition components (key : string) : list string := split_path key "".

(** Does the path end at, or run through, an entry called [name]? *)
Definition mentions (name key : string) : bool :=
  bool_decide (name ∈ components key).

End KeyPaths.

(* ===================================================================== *)
(** * Part II: properties *)
(* ===================================================================== *)

(** ** The layout mask *)

Section MaskFacts.
Import Mask.

(** Case analysis on every [<?] test of the goal. *)
Ltac ltb_cases :=
  repeat match goal with
         | |- context [ ?x <? ?y ] => destruct (Z.ltb_spec x y)
         end.

Lemma np_clip_range a n : 0 < n → 0 ≤ np_clip a 0 (n - 1) ≤ n - 1.
Proof. unfold np_clip. lia. Qed.

Lemma in_slice_clipped (n : nat) a b k :
  in_slice (Z.of_nat n) (np_clip a 0 (Z.of_nat n - 1))
           (np_clip b 0 (Z.of_nat n - 1)) k = true
  ↔ np_clip a 0 (Z.of_nat n - 1) ≤ Z.of_nat k < np_clip b 0 (Z.of_nat n - 1).
Proof.
  unfold in_slice, slice_bound, np_clip.
  rewrite andb_true_iff, Z.leb_le, Z.ltb_lt.
  ltb_cases; lia.
Qed.

Lemma in_slice_last (n : nat) a b :
  in_slice (Z.of_nat n) a (np_clip b 0 (Z.of_nat n - 1)) (n - 1) = false.
Proof.
  unfold in_slice, slice_bound, np_clip.
  apply andb_false_iff. right. apply Z.ltb_ge.
  ltb_cases; lia.
Qed.

Lemma paint_lookup m y0 y1 x0 x1 v r :
  paint m y0 y1 x0 x1 v !! r =
  (λ row, if in_slice (Z.of_nat (length m)) y0 y1 r
          then imap (λ c old, if in_slice (Z.of_nat (length row)) x0 x1 c
                              then v else old) row
          else row) <$> m !! r.
Proof. unfold paint. by rewrite list_lookup_imap. Qed.

Lemma paint_shaped h w m y0 y1 x0 x1 v :
  shaped h w m → shaped h w (paint m y0 y1 x0 x1 v).
Proof.
  intros [Hl Hr]. split.
  - unfold paint. by rewrite length_imap.
  - intros r row. rewrite paint_lookup.
    destruct (m !! r) as [row0|] eqn:E; simpl; [|done].
    intros [= <-]. destruct (in_slice _ y0 y1 r); [rewrite length_imap|]; eauto.
Qed.

Lemma paint_rect_shaped h w d v m :
  shaped h w m → shaped h w (paint_rect (Z.of_nat h) (Z.of_nat w) d v m).
Proof.
  unfold paint_rect. destruct (rect _ _ d) as [[[x0 y0] x1] y1].
  apply paint_shaped.
Qed.

(** What a cell holds after [box[y0:y1, x0:x1] = v]. *)
Lemma paint_cell h w m y0 y1 x0 x1 v (r c : nat) :
  shaped h w m →
  cell (paint m y0 y1 x0 x1 v) r c =
  if in_slice (Z.of_nat h) y0 y1 r && in_slice (Z.of_nat w) x0 x1 c
  then match cell m r c with Some _ => Some v | None => None end
  else cell m r c.
Proof.
  intros [Hl Hr]. unfold cell. rewrite paint_lookup, Hl.
  destruct (m !! r) as [row|] eqn:E; simpl.
  - rewrite (Hr _ _ E).
    destruct (in_slice _ y0 y1 r); simpl; [|done].
    rewrite list_lookup_imap.
    destruct (row !! c); simpl; by destruct (in_slice _ x0 x1 c).
  - by destruct (_ && _).
Qed.

Lemma shaped_cell_is_Some h w m (r c : nat) :
  shaped h w m → (r < h)%nat → (c < w)%nat → is_Some (cell m r c).
Proof.
  intros [Hl Hr] Hr' Hc. unfold cell.
  destruct (lookup_lt_is_Some_2 m r) as [row E]; [lia|].
  rewrite E. apply lookup_lt_is_Some_2. rewrite (Hr _ _ E). lia.
Qed.

Lemma shaped_ones h w : shaped h w (replicate h (replicate w 1)).
Proof.
  split; [apply length_replicate|].
  intros r row [-> _]%lookup_replicate. apply length_replicate.
Qed.

(** Inside its own clamped rectangle a painted box leaves its value. *)
Lemma paint_rect_inside (h w : nat) d v m x0 y0 x1 y1 (r c : nat) :
  shaped h w m →
  rect (Z.of_nat h) (Z.of_nat w) d = (x0, y0, x1, y1) →
  y0 ≤ Z.of_nat r < y1 → x0 ≤ Z.of_nat c < x1 →
  cell (paint_rect (Z.of_nat h) (Z.of_nat w) d v m) r c = Some v.
Proof.
  intros Hs Hrect Hr Hc. unfold paint_rect. rewrite Hrect.
  rewrite (paint_cell h w) by done.
  unfold rect in Hrect. destruct (xyxy d) as [[[a0 b0] a1] b1].
  injection Hrect as <- <- <- <-.
  assert (Hin : in_slice (Z.of_nat h) (np_clip (py_int (inject_Z (Z.of_nat h) - b1 - 1)) 0 (Z.of_nat h - 1))
                  (np_clip (py_int (inject_Z (Z.of_nat h) - b0 + 1)) 0 (Z.of_nat h - 1)) r
                && in_slice (Z.of_nat w) (np_clip (py_int (a0 - 1)) 0 (Z.of_nat w - 1))
                  (np_clip (py_int (a1 + 1)) 0 (Z.of_nat w - 1)) c = true).
  { apply andb_true_iff. split; by apply in_slice_clipped. }
  rewrite Hin.
  destruct (shaped_cell_is_Some h w m r c Hs) as [z ->]; [| |done].
  - unfold np_clip in Hr. lia.
  - unfold np_clip in Hc. lia.
Qed.

(** Painting [0] never turns a [0] cell into something else. *)
Lemma paint_rect_zero_kept (h w : nat) d m (r c : nat) :
  shaped h w m → cell m r c = Some 0 →
  cell (paint_rect (Z.of_nat h) (Z.of_nat w) d 0 m) r c = Some 0.
Proof.
  intros Hs Hz. unfold paint_rect.
  destruct (rect _ _ d) as [[[x0 y0] x1] y1].
  rewrite (paint_cell h w) by done. rewrite Hz. by destruct (_ && _).
Qed.

Lemma paint_translatable_shaped nm (h w : nat) bs : ∀ i m m',
  shaped h w m →
  paint_translatable nm (Z.of_nat h) (Z.of_nat w) i bs m = Some m' →
  shaped h w m'.
Proof.
  induction bs as [|d bs IH]; intros i m m' Hs; simpl.
  - by intros [= <-].
  - destruct (preserved nm d) as [p|]; simpl; [|done].
    apply IH. destruct p; simpl; [done|by apply paint_rect_shaped].
Qed.

(** The second loop: zeros stay, and every preserve-class box of the
    list ends with its rectangle at [0]. *)
Lemma paint_preserved_zero nm (h w : nat) bs : ∀ m m',
  shaped h w m →
  paint_preserved nm (Z.of_nat h) (Z.of_nat w) bs m = Some m' →
  shaped h w m' ∧
  (∀ r c, cell m r c = Some 0 → cell m' r c = Some 0) ∧
  (∀ d x0 y0 x1 y1 (r c : nat),
      d ∈ bs → preserved nm d = Some true →
      rect (Z.of_nat h) (Z.of_nat w) d = (x0, y0, x1, y1) →
      y0 ≤ Z.of_nat r < y1 → x0 ≤ Z.of_nat c < x1 →
      cell m' r c = Some 0).
Proof.
  induction bs as [|d bs IH]; intros m m' Hs; simpl.
  - intros [= <-]. split; [done|]. split; [done|].
    intros ??????? Hin. by apply elem_of_nil in Hin.
  - destruct (preserved nm d) as [p|] eqn:Hp; simpl; [|done].
    intros Hrun.
    assert (Hs1 : shaped h w (if p then paint_rect (Z.of_nat h) (Z.of_nat w) d 0 m else m)).
    { destruct p; [by apply paint_rect_shaped|done]. }
    destruct (IH _ _ Hs1 Hrun) as (Hs' & Hkeep & Hbox).
    split; [done|]. split.
    + intros r c Hz. apply Hkeep.
      destruct p; [by apply paint_rect_zero_kept|done].
    + intros d' x0 y0 x1 y1 r c [->|Hin]%elem_of_cons Hp' Hrect Hr Hc.
      * apply Hkeep. rewrite Hp in Hp'. injection Hp' as ->.
        by eapply paint_rect_inside.
      * by eapply Hbox.
Qed.

(** What the second loop does achieve.  In the mask [translate_patch]
    builds for a page, every cell of the slice [box[y0:y1, x0:x1]] that
    is assigned for a preserve-class box (rows [y0..y1-1], columns
    [x0..x1-1] of its clamped, one-pixel-expanded coordinates) holds [0]
    at the end, whatever translatable boxes overlap it: the preserve
    classes are painted in a second loop, after all translatable ones.
    Row [y1] and column [x1] are not part of the slice. *)
Theorem preserve_class_cells_are_zero
    (pix_height pix_width : nat) (page_layout : YoloResult) (m : mask)
    (i : nat) (d : YoloBox) (name : string) (x0 y0 x1 y1 : Z) (r c : nat) :
  layout_mask pix_height pix_width page_layout = Some m →
  boxes page_layout !! i = Some d →
  names page_layout !! py_int (cls d) = Some name →
  name ∈ vcls →
  rect (Z.of_nat pix_height) (Z.of_nat pix_width) d = (x0, y0, x1, y1) →
  y0 ≤ Z.of_nat r < y1 → x0 ≤ Z.of_nat c < x1 →
  cell m r c = Some 0.
Proof.
  unfold layout_mask. intros Hm Hd Hname Hv Hrect Hr Hc.
  destruct (paint_translatable _ _ _ _ _ _) as [m1|] eqn:E1; simpl in Hm; [|done].
  pose proof (paint_translatable_shaped _ _ _ _ _ _ _ (shaped_ones _ _) E1) as Hs1.
  destruct (paint_preserved_zero _ _ _ _ _ _ Hs1 Hm) as (_ & _ & Hbox).
  eapply Hbox; eauto.
  - by eapply list_elem_of_lookup_2.
  - unfold preserved. rewrite Hname. simpl. by rewrite bool_decide_eq_true_2.
Qed.

Lemma preserve_class_cells_are_zero_witness :
  layout_mask 4 4 sample_layout
    = Some [[3;3;3;1]; [0;0;0;1]; [0;0;0;1]; [1;1;1;1]]
  ∧ cell [[3;3;3;1]; [0;0;0;1]; [0;0;0;1]; [1;1;1;1]] 2 1 = Some 0.
Proof.
  split; [vm_compute; reflexivity|].
  apply (preserve_class_cells_are_zero 4 4 sample_layout _ 0 figure_box
           "figure" 0 1 3 3 2 1).
  - vm_compute; reflexivity.
  - reflexivity.
  - vm_compute; reflexivity.
  - unfold vcls. set_solver.
  - vm_compute; reflexivity.
  - lia.
  - lia.
Defined.

(** The builder never fails when every class index is in the name
    table, and its mask has the pixmap's dimensions. *)
Lemma paint_translatable_total nm h w bs : ∀ i m,
  Forall (λ d, is_Some (nm !! py_int (cls d))) bs →
  is_Some (paint_translatable nm h w i bs m).
Proof.
  induction bs as [|d bs IH]; intros i m Hall; simpl; [by eexists|].
  inversion Hall as [|? ? [n Hn] Hall']; subst.
  unfold preserved. rewrite Hn. simpl. by apply IH.
Qed.

Lemma paint_preserved_total nm h w bs : ∀ m,
  Forall (λ d, is_Some (nm !! py_int (cls d))) bs →
  is_Some (paint_preserved nm h w bs m).
Proof.
  induction bs as [|d bs IH]; intros m Hall; simpl; [by eexists|].
  inversion Hall as [|? ? [n Hn] Hall']; subst.
  unfold preserved. rewrite Hn. simpl. by apply IH.
Qed.

Lemma layout_mask_total pix_height pix_width page_layout :
  Forall (λ d, is_Some (names page_layout !! py_int (cls d)))
         (boxes page_layout) →
  ∃ m, layout_mask pix_height pix_width page_layout = Some m
       ∧ shaped pix_height pix_width m.
Proof.
  intros Hall. unfold layout_mask.
  destruct (paint_translatable_total (names page_layout)
              (Z.of_nat pix_height) (Z.of_nat pix_width) _ 0
              (replicate pix_height (replicate pix_width 1)) Hall) as [m1 E1].
  rewrite E1. simpl.
  pose proof (paint_translatable_shaped _ _ _ _ _ _ _ (shaped_ones _ _) E1) as Hs1.
  destruct (paint_preserved_total (names page_layout)
              (Z.of_nat pix_height) (Z.of_nat pix_width) _ m1 Hall) as [m2 E2].
  exists m2. split; [done|].
  by destruct (paint_preserved_zero _ _ _ _ _ _ Hs1 E2) as (? & _).
Qed.

(** No assignment of either loop reaches the last mask row: the upper
    row bound is clamped to [h - 1] and then used as the exclusive end
    of the slice. *)
Lemma paint_rect_last_row (h w : nat) d v (m : mask) row :
  length m = h → m !! (h - 1)%nat = Some row →
  paint_rect (Z.of_nat h) (Z.of_nat w) d v m !! (h - 1)%nat = Some row.
Proof.
  intros Hl Hrow. unfold paint_rect, rect.
  destruct (xyxy d) as [[[a0 b0] a1] b1].
  rewrite paint_lookup, Hrow, Hl. simpl.
  by rewrite in_slice_last.
Qed.

Lemma paint_rect_length (h w : Z) d v (m : mask) :
  length (paint_rect h w d v m) = length m.
Proof.
  unfold paint_rect. destruct (rect h w d) as [[[x0 y0] x1] y1].
  unfold paint. by rewrite length_imap.
Qed.

Lemma paint_translatable_last_row nm (h w : nat) bs row : ∀ i (m m' : mask),
  length m = h → m !! (h - 1)%nat = Some row →
  paint_translatable nm (Z.of_nat h) (Z.of_nat w) i bs m = Some m' →
  length m' = h ∧ m' !! (h - 1)%nat = Some row.
Proof.
  induction bs as [|d bs IH]; intros i m m' Hl Hrow; simpl.
  - by intros [= <-].
  - destruct (preserved nm d) as [p|]; simpl; [|done].
    apply IH; destruct p; simpl; try done.
    + by rewrite paint_rect_length.
    + by apply paint_rect_last_row.
Qed.

Lemma paint_preserved_last_row nm (h w : nat) bs row : ∀ (m m' : mask),
  length m = h → m !! (h - 1)%nat = Some row →
  paint_preserved nm (Z.of_nat h) (Z.of_nat w) bs m = Some m' →
  length m' = h ∧ m' !! (h - 1)%nat = Some row.
Proof.
  induction bs as [|d bs IH]; intros m m' Hl Hrow; simpl.
  - by intros [= <-].
  - destruct (preserved nm d) as [p|]; simpl; [|done].
    apply IH; destruct p; simpl; try done.
    + by rewrite paint_rect_length.
    + by apply paint_rect_last_row.
Qed.

(** Whatever the detections, row [h - 1] of the finished mask is still
    the initial row of ones. *)
Lemma layout_mask_last_row_untouched pix_height pix_width page_layout m :
  (0 < pix_height)%nat →
  layout_mask pix_height pix_width page_layout = Some m →
  m !! (pix_height - 1)%nat = Some (replicate pix_width 1).
Proof.
  intros Hpos. unfold layout_mask. intros Hm.
  destruct (paint_translatable _ _ _ _ _ _) as [m1|] eqn:E1; simpl in Hm; [|done].
  assert (H0 : replicate pix_height (replicate pix_width 1) !! (pix_height - 1)%nat
               = Some (replicate pix_width 1)).
  { apply lookup_replicate_2. lia. }
  destruct (paint_translatable_last_row _ _ _ _ _ _ _ _
              (length_replicate _ _) H0 E1) as [Hl1 Hr1].
  by destruct (paint_preserved_last_row _ _ _ _ _ _ _ Hl1 Hr1 Hm).
Qed.

(** C5. A translatable box at image coordinates [(1, 0, 3, h)] on a page
    of height [h = 4] is painted on mask rows 0..2 only; row [h - 1 = 3]
    keeps the initial value 1 and none of its cells carries the box's
    index 2. *)
Theorem top_box_misses_last_row :
  layout_mask 4 4 top_layout
    = Some [[2;2;2;1]; [2;2;2;1]; [2;2;2;1]; [1;1;1;1]].
Proof. vm_compute. reflexivity. Qed.

End MaskFacts.

(** ** Font lookup *)

Section FontFacts.
Import Py Fonts.

Lemma font_files_names p : (font_files p).*1 = font_order.
Proof. by destruct p. Qed.

(** The innermost loop either finds nothing and leaves the dictionary
    alone, or binds the family to an existing file of the directory. *)
Lemma scan_filenames_spec w p font_name font_path filenames system_fonts :
  (scan_filenames w p font_name font_path filenames system_fonts = system_fonts
   ∧ ∀ filename, filename ∈ filenames →
       exists_ w (path_join p font_path filename) = false)
  ∨ (∃ filename, filename ∈ filenames
       ∧ exists_ w (path_join p font_path filename) = true
       ∧ scan_filenames w p font_name font_path filenames system_fonts
         = <[ font_name := path_join p font_path filename ]> system_fonts).
Proof.
  induction filenames as [|fn rest IH]; simpl.
  - left. split; [done|]. intros ? Hin. by apply elem_of_nil in Hin.
  - destruct (exists_ w (path_join p font_path fn)) eqn:E.
    + right. exists fn. split; [left|done].
    + destruct IH as [[Heq Hno]|(fn' & Hin & Hex & Heq)].
      * left. split; [done|].
        intros ? [->|Hin]%elem_of_cons; [done|by apply Hno].
      * right. exists fn'. split; [by right|done].
Qed.

Lemma scan_paths_spec w p font_name filenames paths system_fonts :
  system_fonts !! font_name = None →
  (scan_paths w p font_name filenames paths system_fonts = system_fonts
   ∧ ¬ resolves w p paths filenames)
  ∨ (∃ font_path filename,
       font_path ∈ paths ∧ filename ∈ filenames
       ∧ exists_ w font_path = true
       ∧ exists_ w (path_join p font_path filename) = true
       ∧ scan_paths w p font_name filenames paths system_fonts
         = <[ font_name := path_join p font_path filename ]> system_fonts).
Proof.
  intros Hfresh. induction paths as [|dir rest IH]; simpl.
  - left. split; [done|]. intros (? & ? & Hin & _). by apply elem_of_nil in Hin.
  - destruct (exists_ w dir) eqn:Edir; simpl.
    + destruct (scan_filenames_spec w p font_name dir filenames system_fonts)
        as [[Heq Hno]|(fn & Hin & Hex & Heq)]; rewrite Heq.
      * rewrite bool_decide_eq_false_2
          by (rewrite Hfresh; by intros [? ?]).
        destruct IH as [[Heq' Hnr]|(d' & fn' & Hd' & Hfn' & Hed & Hef & Heq')].
        -- left. split; [done|].
           intros (d' & fn' & [->|Hd']%elem_of_cons & Hfn' & Hed & Hef).
           ++ rewrite Hno in Hef; done.
           ++ apply Hnr. by exists d', fn'.
        -- right. exists d', fn'. repeat split; try done. by right.
      * rewrite bool_decide_eq_true_2
          by (rewrite lookup_insert_eq; by eexists).
        right. exists dir, fn. repeat split; try done. by left.
    + destruct IH as [[Heq' Hnr]|(d' & fn' & Hd' & Hfn' & Hed & Hef & Heq')].
      * left. split; [done|].
        intros (d' & fn' & [->|Hd']%elem_of_cons & Hfn' & Hed & Hef).
        -- rewrite Edir in Hed; done.
        -- apply Hnr. by exists d', fn'.
      * right. exists d', fn'. repeat split; try done. by right.
Qed.

Lemma scan_paths_other w p font_name filenames paths system_fonts g :
  system_fonts !! font_name = None → g ≠ font_name →
  scan_paths w p font_name filenames paths system_fonts !! g = system_fonts !! g.
Proof.
  intros Hfresh Hne.
  destruct (scan_paths_spec w p font_name filenames paths system_fonts Hfresh)
    as [[-> _]|(? & ? & _ & _ & _ & _ & ->)]; [done|].
  by rewrite lookup_insert_ne.
Qed.

(** [get_system_fonts] binds exactly the families that resolve. *)
Lemma scan_families_spec w p paths fams : ∀ system_fonts,
  NoDup fams.*1 →
  (∀ f, f ∈ fams.*1 → system_fonts !! f = None) →
  (∀ g, g ∉ fams.*1 →
     scan_families w p paths fams system_fonts !! g = system_fonts !! g)
  ∧ (∀ f fns, (f, fns) ∈ fams →
       (¬ resolves w p paths fns
        ∧ scan_families w p paths fams system_fonts !! f = None)
       ∨ (∃ font_path filename,
            font_path ∈ paths ∧ filename ∈ fns
            ∧ exists_ w font_path = true
            ∧ exists_ w (path_join p font_path filename) = true
            ∧ scan_families w p paths fams system_fonts !! f
              = Some (path_join p font_path filename))).
Proof.
  induction fams as [|[f0 fns0] rest IH]; intros sf Hnd Hfresh; simpl.
  - split; [done|]. intros ?? Hin. by apply elem_of_nil in Hin.
  - simpl in Hnd. apply NoDup_cons in Hnd as [Hnotin Hnd].
    assert (Hf0 : sf !! f0 = None) by (apply Hfresh; simpl; by left).
    set (sf1 := scan_paths w p f0 fns0 paths sf).
    assert (Hfresh1 : ∀ f, f ∈ rest.*1 → sf1 !! f = None).
    { intros f Hin. unfold sf1. rewrite scan_paths_other; try done.
      - apply Hfresh. simpl. by right.
      - intros ->. done. }
    destruct (IH sf1 Hnd Hfresh1) as [Hother Hfam].
    split.
    + intros g Hg. rewrite Hother by (intros ?; apply Hg; simpl; by right).
      unfold sf1. apply scan_paths_other; [done|].
      intros ->. apply Hg. simpl. by left.
    + intros f fns [[= -> ->]|Hin]%elem_of_cons.
      * rewrite (Hother f0 Hnotin). unfold sf1.
        destruct (scan_paths_spec w p f0 fns0 paths sf Hf0)
          as [[-> Hnr]|(d & fn & ? & ? & ? & ? & ->)].
        -- by left.
        -- right. exists d, fn. by rewrite lookup_insert_eq.
      * by apply Hfam.
Qed.



Lemma font_order_NoDup : NoDup font_order.
Proof. apply (bool_decide_unpack _). by vm_compute. Qed.



(** A call that finds the cached file returns its path and starts no
    download. *)
Lemma get_fallback_font_cached e w :
  mkdir_ok w = true →
  exists_ w (fallback_path e) = true →
  get_fallback_font e w
  = (inr (Some (fallback_path e)), add_file (temp_dir e) w).
Proof.
  intros Hmk Hex. unfold get_fallback_font. rewrite Hmk. simpl.
  assert (Hex' : exists_ (add_file (temp_dir e) w) (fallback_path e) = true).
  { unfold exists_, add_file in *. simpl.
    apply bool_decide_eq_true. apply bool_decide_eq_true in Hex. set_solver. }
  by rewrite Hex'.
Qed.

(** C8. Once [get_fallback_font] has returned the cached path, a second
    call returns the same path and starts no download; the first call
    itself started at most one. *)
Theorem fallback_font_fetched_at_most_once e w p w1 :
  get_fallback_font e w = (inr (Some p), w1) →
  p = fallback_path e
  ∧ (length (fetches w1) ≤ S (length (fetches w)))%nat
  ∧ ∃ w2, get_fallback_font e w1 = (inr (Some p), w2)
          ∧ fetches w2 = fetches w1.
Proof.
  intros Hcall. unfold get_fallback_font in Hcall.
  destruct (mkdir_ok w) eqn:Hmk; simpl in Hcall; [|done].
  destruct (exists_ (add_file (temp_dir e) w) (fallback_path e)) eqn:Hex;
    simpl in Hcall.
  - injection Hcall as <- <-. split; [done|]. split; [simpl; lia|].
    eexists. split.
    { rewrite get_fallback_font_cached; [reflexivity|exact Hmk|].
      unfold exists_, add_file in *. simpl in *.
      apply bool_decide_eq_true. apply bool_decide_eq_true in Hex.
      set_solver. }
    reflexivity.
  - destruct (network w (length (fetches w))) as [|partial]; [|done].
    assert (Hnow : exists_ (add_file (fallback_path e)
                     (log_fetch fallback_url (fallback_path e)
                        (add_file (temp_dir e) w))) (fallback_path e) = true).
    { unfold exists_, add_file. simpl. apply bool_decide_eq_true. set_solver. }
    rewrite Hnow in Hcall. injection Hcall as <- <-. split; [done|]. split.
    { simpl. rewrite length_app. simpl. lia. }
    eexists. split.
    { rewrite get_fallback_font_cached; [reflexivity|exact Hmk|exact Hnow]. }
    reflexivity.
Qed.

Lemma fallback_font_fetched_at_most_once_witness :
  ∃ w2, get_fallback_font linux_env
          (get_fallback_font linux_env Sweep.empty_world).2
        = (inr (Some "/tmp/pdf2zh_fonts/SourceHanSerifSC-Regular.otf"), w2)
        ∧ length (fetches w2) = 1%nat.
Proof.
  destruct (fallback_font_fetched_at_most_once linux_env Sweep.empty_world
              "/tmp/pdf2zh_fonts/SourceHanSerifSC-Regular.otf"
              (get_fallback_font linux_env Sweep.empty_world).2)
    as (_ & _ & w2 & Hcall & Hsame).
  - vm_compute. reflexivity.
  - exists w2. split; [exact Hcall|]. rewrite Hsame. vm_compute. reflexivity.
Defined.

End FontFacts.

(** ** The font-resource scan *)

Section PatcherFacts.
Import Py Patcher.

Variable font_id : gmap string Z.

(** Whatever the document model raises while an object is looked at is
    an [Exception], so the [except] clause catches it. *)
Lemma xref_get_key_raises d xref key e :
  xref_get_key d xref key = inl e → is_Exception e = true.
Proof.
  unfold xref_get_key, obj_get_key.
  repeat case_match; intros [= <-]; done.
Qed.

Lemma xref_set_key_raises d xref key value e :
  xref_set_key d xref key value = inl e → is_Exception e = true.
Proof.
  unfold xref_set_key, obj_set_key, bind.
  repeat case_match; intros [= <-]; simplify_eq; done.
Qed.

Lemma bind_font_raises xref label font d e :
  bind_font font_id xref label font d = inl e → is_Exception e = true.
Proof.
  unfold bind_font, bind.
  destruct (xref_get_key d xref _) as [e'|tv] eqn:Hget.
  - intros [= <-]. by eapply xref_get_key_raises.
  - destruct (String.eqb tv.1 "null"); [|done].
    destruct (font_id !! font.1); [|by intros [= <-]].
    apply xref_set_key_raises.
Qed.

Lemma bind_fonts_raises xref label fonts : ∀ d e d',
  bind_fonts font_id xref label fonts d = (inl e, d') → is_Exception e = true.
Proof.
  induction fonts as [|font rest IH]; intros d e d'; simpl; [done|].
  destruct (bind_font font_id xref label font d) as [e'|d1] eqn:Hb.
  - intros [= <- <-]. by eapply bind_font_raises.
  - apply IH.
Qed.

(** So each [try] block ends normally. *)
Lemma swallow_inspect fonts xref label d :
  ∃ d', swallow (inspect font_id fonts xref label d) = (inr tt, d').
Proof.
  unfold inspect.
  destruct (xref_get_key d xref _) as [e|tv] eqn:Hget; simpl.
  - rewrite (xref_get_key_raises _ _ _ _ Hget). by eexists.
  - destruct (String.eqb tv.1 "dict"); [|by eexists].
    destruct (bind_fonts font_id xref label fonts d) as [[e|[]] d'] eqn:Hb;
      simpl; [|by eexists].
    rewrite (bind_fonts_raises _ _ _ _ _ _ Hb). by eexists.
Qed.

Lemma bind_font_xref_length xref label font d d' :
  bind_font font_id xref label font d = inr d' →
  xref_length d' = xref_length d.
Proof.
  unfold bind_font, bind, xref_set_key, bind.
  repeat case_match; intros [= <-]; simplify_eq; done.
Qed.

Lemma bind_fonts_xref_length xref label fonts : ∀ d r d',
  bind_fonts font_id xref label fonts d = (r, d') →
  xref_length d' = xref_length d.
Proof.
  induction fonts as [|font rest IH]; intros d r d'; simpl.
  - by intros [= _ <-].
  - destruct (bind_font font_id xref label font d) as [e'|d1] eqn:Hb.
    + by intros [= _ <-].
    + intros Hrest. rewrite (IH _ _ _ Hrest). by eapply bind_font_xref_length.
Qed.

Lemma inspect_xref_length fonts xref label d r d' :
  inspect font_id fonts xref label d = (r, d') →
  xref_length d' = xref_length d.
Proof.
  unfold inspect.
  destruct (xref_get_key d xref _) as [e|tv]; [by intros [= _ <-]|].
  destruct (String.eqb tv.1 "dict"); [|by intros [= _ <-]].
  apply bind_fonts_xref_length.
Qed.

Lemma swallow_snd r : (swallow r).2 = r.2.
Proof. destruct r as [[e|u] d]; simpl; [|done]. by destruct (is_Exception e). Qed.

(** The loop over the labels runs to its end for every object. *)
Lemma scan_labels_total fonts xref ls : ∀ s,
  ∃ s', scan_labels font_id fonts xref ls s = (inr tt, s')
        ∧ inspected s' = inspected s ++ ((λ l, (xref, l)) <$> ls)
        ∧ xref_length (doc s') = xref_length (doc s).
Proof.
  induction ls as [|l ls IH]; intros s; simpl.
  - exists s. by rewrite app_nil_r.
  - destruct (swallow_inspect fonts xref l (doc s)) as [d' Hd'].
    rewrite Hd'.
    destruct (IH (mkScan d' (inspected s ++ [(xref, l)])))
      as (s' & Hrun & Hseen & Hlen).
    exists s'. split; [done|]. simpl in *. split.
    + by rewrite Hseen, <- app_assoc.
    + rewrite Hlen.
      pose proof (swallow_snd (inspect font_id fonts xref l (doc s))) as Hsnd.
      rewrite Hd' in Hsnd. simpl in Hsnd.
      destruct (inspect font_id fonts xref l (doc s)) as [r d0] eqn:Hi.
      simpl in Hsnd. subst d0. by eapply inspect_xref_length.
Qed.

Lemma scan_xrefs_total fonts xrefs : ∀ s,
  ∃ s', scan_xrefs font_id fonts xrefs s = (inr tt, s')
        ∧ inspected s'
          = inspected s ++ (xrefs ≫= λ xref, (λ l, (xref, l)) <$> labels)
        ∧ xref_length (doc s') = xref_length (doc s).
Proof.
  induction xrefs as [|x xs IH]; intros s.
  - exists s. simpl. by rewrite app_nil_r.
  - cbn [scan_xrefs mbind list_bind].
    destruct (scan_labels_total fonts x labels s) as (s1 & -> & Hseen1 & Hlen1).
    destruct (IH s1) as (s' & Hrun & Hseen & Hlen).
    exists s'. split; [done|]. split.
    + rewrite Hseen, Hseen1. by rewrite <- app_assoc.
    + by rewrite Hlen.
Qed.

(** C9. The scan never stops early: whatever the objects are and
    whichever lookups or writes fail, it ends normally and has entered
    the [try] block of every identifier of [range(1, xreflen)] under
    both labels, in order. *)
Theorem patch_failures_never_abort_scan fonts d :
  ∃ s, patch_resources font_id fonts d = (inr tt, s)
       ∧ inspected s
         = (seqZ 1 (xref_length d - 1) ≫= λ xref,
              [(xref, "Resources/"); (xref, "")])
       ∧ xref_length (doc s) = xref_length d.
Proof.
  unfold patch_resources.
  destruct (scan_xrefs_total fonts (seqZ 1 (xref_length d - 1)) (mkScan d []))
    as (s & Hrun & Hseen & Hlen).
  exists s. split; [done|]. split; [|done].
  by rewrite Hseen.
Qed.

(** *** What the scan does to one object *)

Lemma inspect_obj_bindable name label o :
  inspect_obj font_id name label o =
  match font_id !! name with
  | Some id =>
      if bindable name label o
      then bound name label (pretty id +:+ " 0 R") o else o
  | None => o
  end.
Proof.
  unfold inspect_obj, bindable, obj_get_key, obj_set_key, bound.
  destruct (bool_decide (label +:+ "Font" ∈ unreadable o)); simpl;
    [by destruct (font_id !! name)|].
  destruct (String.eqb _ "dict"); simpl; [|by destruct (font_id !! name)].
  destruct (bool_decide (label +:+ "Font/" +:+ name ∈ unreadable o)); simpl;
    [by destruct (font_id !! name)|].
  destruct (String.eqb _ "null"); simpl; [|by destruct (font_id !! name)].
  destruct (font_id !! name); [|done].
  by destruct (bool_decide (label +:+ "Font/" +:+ name ∈ unwritable o)).
Qed.




(** A name that is bound is never written. *)
Lemma inspect_obj_keeps name label o key tv :
  entries o !! key = Some tv → tv.1 ≠ "null" →
  entries (inspect_obj font_id name label o) !! key = Some tv.
Proof.
  intros Hk Hnn. rewrite inspect_obj_bindable.
  destruct (font_id !! name) as [id|]; [|done].
  destruct (bindable name label o) eqn:Hb; [|done].
  unfold bound. simpl.
  destruct (decide (key = label +:+ "Font/" +:+ name)) as [->|Hne].
  - exfalso. unfold bindable in Hb. rewrite Hk in Hb. simpl in Hb.
    apply andb_true_iff in Hb as [Hb _]. apply andb_true_iff in Hb as [_ Hb].
    apply String.eqb_eq in Hb. done.
  - by rewrite lookup_insert_ne.
Qed.


(** *** From one object to the document *)

Lemma alter_at_binding {A} (f : A → A) (m : gmap Z A) i x :
  m !! i = Some x → alter f i m = <[ i := f x ]> m.
Proof.
  intros Hi. apply map_eq. intros j. rewrite lookup_alter, lookup_insert.
  case_decide; [subst; by rewrite Hi|done].
Qed.

Lemma store_same d : mkStore (objs d) (xref_length d) = d.
Proof. by destruct d. Qed.

(** One [try] block of [translate_stream]'s scan is [inspect_obj] on
    the object it addresses. *)
Lemma swallow_inspect_alter font_path xref label d :
  valid_xref d xref = true →
  swallow (inspect font_id (font_list font_path) xref label d)
  = (inr tt, mkStore (alter (inspect_obj font_id "CustomFont" label) xref (objs d))
                     (xref_length d)).
Proof.
  intros Hv. unfold inspect, font_list, xref_get_key. rewrite Hv. simpl.
  destruct (objs d !! xref) as [o|] eqn:Ho.
  2:{ simpl. by rewrite (alter_id' _ _ _ Ho), store_same. }
  rewrite (alter_at_binding _ _ _ _ Ho).
  unfold inspect_obj, bind_font, bind, xref_get_key, xref_set_key, bind.
  rewrite Hv, Ho. simpl.
  unfold obj_get_key, obj_set_key.
  destruct (bool_decide (label +:+ "Font" ∈ unreadable o)); simpl;
    [by rewrite (insert_id _ _ _ Ho), store_same|].
  destruct (String.eqb _ "dict"); simpl;
    [|by rewrite (insert_id _ _ _ Ho), store_same].
  destruct (bool_decide (label +:+ "Font/" +:+ "CustomFont" ∈ unreadable o)); simpl;
    [by rewrite (insert_id _ _ _ Ho), store_same|].
  destruct (String.eqb _ "null"); simpl;
    [|by rewrite (insert_id _ _ _ Ho), store_same].
  destruct (font_id !! "CustomFont"); simpl;
    [|by rewrite (insert_id _ _ _ Ho), store_same].
  destruct (bool_decide (label +:+ "Font/" +:+ "CustomFont" ∈ unwritable o)); simpl;
    [by rewrite (insert_id _ _ _ Ho), store_same|done].
Qed.

Lemma scan_labels_alter font_path xref s :
  valid_xref (doc s) xref = true →
  ∃ s', scan_labels font_id (font_list font_path) xref labels s = (inr tt, s')
        ∧ xref_length (doc s') = xref_length (doc s)
        ∧ objs (doc s')
          = alter (patch_obj font_id "CustomFont") xref (objs (doc s)).
Proof.
  intros Hv. unfold labels. cbn [scan_labels].
  rewrite swallow_inspect_alter by done. cbn [doc].
  rewrite swallow_inspect_alter by done. cbn [doc objs xref_length].
  eexists. split; [reflexivity|]. split; [done|]. simpl.
  apply map_eq. intros j. rewrite !lookup_alter.
  case_decide; [|done]. subst. unfold patch_obj.
  rewrite decide_True by done.
  by destruct (objs (doc s) !! j).
Qed.

Lemma scan_xrefs_alter font_path xrefs : ∀ s,
  NoDup xrefs →
  (∀ x, x ∈ xrefs → valid_xref (doc s) x = true) →
  ∃ s', scan_xrefs font_id (font_list font_path) xrefs s = (inr tt, s')
        ∧ xref_length (doc s') = xref_length (doc s)
        ∧ ∀ x, objs (doc s') !! x
               = if bool_decide (x ∈ xrefs)
                 then patch_obj font_id "CustomFont" <$> objs (doc s) !! x
                 else objs (doc s) !! x.
Proof.
  induction xrefs as [|x0 xs IH]; intros s Hnd Hval.
  - exists s. split; [done|]. split; [done|]. intros x.
    rewrite bool_decide_eq_false_2; [done|apply not_elem_of_nil].
  - apply NoDup_cons in Hnd as [Hx0 Hnd]. cbn [scan_xrefs].
    destruct (scan_labels_alter font_path x0 s) as (s1 & -> & Hlen1 & Hobjs1).
    { apply Hval. by left. }
    destruct (IH s1 Hnd) as (s' & Hrun & Hlen & Hobjs).
    { intros x Hx. unfold valid_xref. rewrite Hlen1.
      apply (Hval x). by right. }
    exists s'. split; [done|]. split; [by rewrite Hlen|].
    intros x. rewrite Hobjs, Hobjs1, lookup_alter.
    destruct (decide (x0 = x)) as [->|Hne].
    + rewrite (bool_decide_eq_false_2 (x ∈ xs)) by done.
      rewrite bool_decide_eq_true_2 by by left. done.
    + destruct (decide (x ∈ xs)) as [Hin|Hout].
      * rewrite !bool_decide_eq_true_2; [done|by right|done].
      * rewrite !bool_decide_eq_false_2; [done| |done].
        intros [->|?]%elem_of_cons; done.
Qed.

(** The document after [translate_stream]'s scan. *)
Lemma patch_resources_objs font_path d :
  ∃ s, patch_resources font_id (font_list font_path) d = (inr tt, s)
       ∧ xref_length (doc s) = xref_length d
       ∧ ∀ x, objs (doc s) !! x
              = if valid_xref d x
                then patch_obj font_id "CustomFont" <$> objs d !! x
                else objs d !! x.
Proof.
  unfold patch_resources.
  destruct (scan_xrefs_alter font_path (seqZ 1 (xref_length d - 1)) (mkScan d []))
    as (s & Hrun & Hlen & Hobjs).
  { apply NoDup_seqZ. }
  { intros x [H1 H2]%elem_of_seqZ. unfold valid_xref. simpl.
    apply andb_true_iff. split; [apply Z.leb_le|apply Z.ltb_lt]; lia. }
  exists s. split; [done|]. split; [done|]. intros x. rewrite Hobjs. simpl.
  unfold valid_xref.
  destruct (decide (x ∈ seqZ 1 (xref_length d - 1))) as [Hin|Hout].
  - rewrite bool_decide_eq_true_2 by done.
    apply elem_of_seqZ in Hin.
    replace (1 <=? x) with true by (symmetry; apply Z.leb_le; lia).
    by replace (x <? xref_length d) with true by (symmetry; apply Z.ltb_lt; lia).
  - rewrite bool_decide_eq_false_2 by done.
    destruct (Z.leb_spec 1 x); simpl; [|done].
    destruct (Z.ltb_spec x (xref_length d)); [|done].
    exfalso. apply Hout. apply elem_of_seqZ. lia.
Qed.


End PatcherFacts.

Section PatcherExamples.
Import Py Patcher.


(** On the sample document the damaged object 1 is passed over, object
    2 gets the font under its [Resources/Font] dictionary, and object 3
    keeps the binding it had. *)
Example scan_sample_store :
  let s := (patch_resources {[ "CustomFont" := 9 ]}
              (font_list "/usr/share/fonts/simsun.ttc") sample_store).2 in
  inspected s = [(1, "Resources/"); (1, ""); (2, "Resources/"); (2, "");
                 (3, "Resources/"); (3, "")]
  ∧ (entries <$> objs (doc s) !! 2)
    = Some {[ "Resources/Font" := ("dict", "<<>>");
              "Resources/Font/CustomFont" := ("xref", "9 0 R") ]}
  ∧ (entries <$> objs (doc s) !! 3)
    = Some {[ "Font" := ("dict", "<<>>");
              "Font/CustomFont" := ("xref", "7 0 R") ]}.
Proof. vm_compute. repeat split; reflexivity. Qed.

End PatcherExamples.

(** ** The page sweep *)

Section SweepFacts.
Import Py Patcher Sweep.

Variables (cfg : Config) (col : Collaborators).

(** What one turn of the loop does to the progress bar and to the
    callback, whether or not the page's own work succeeds. *)
Lemma page_step_progress pageno st :
  let st' := (page_step cfg col pageno st).2 in
  if cancelled cfg pageno || filtered_out cfg pageno
  then st' = st
  else bar_n st' = S (bar_n st)
       ∧ callback_log (world st')
         = callback_log (world st)
           ++ (if callback cfg then [S (bar_n st)] else []).
Proof.
  unfold page_step.
  destruct (cancelled cfg pageno); [done|].
  destruct (filtered_out cfg pageno); [done|]. simpl.
  assert (Hlog : callback_log (world (advance cfg st))
                 = callback_log (world st)
                   ++ (if callback cfg then [S (bar_n st)] else [])).
  { unfold advance. simpl. destruct (callback cfg); simpl; [done|].
    by rewrite app_nil_r. }
  destruct (detect col pageno _) as [e|[[h w] page_layout]]; [done|].
  destruct (Mask.layout_mask h w page_layout) as [box|]; [|done].
  by destruct (rewrite col pageno _ _ _) as [e|[d' patch']].
Qed.

Lemma page_step_cancelled pageno st :
  cancelled cfg pageno = true →
  page_step cfg col pageno st = (inl (CancelledError "task cancelled"), st).
Proof. intros Hc. unfold page_step. by rewrite Hc. Qed.

(** A turn that returns without raising was not cancelled. *)
Lemma page_step_returns pageno st st' :
  page_step cfg col pageno st = (inr tt, st') → cancelled cfg pageno = false.
Proof. unfold page_step. by destruct (cancelled cfg pageno). Qed.

Lemma sweep_app l1 l2 st :
  sweep cfg col (l1 ++ l2) st =
  match sweep cfg col l1 st with
  | (inl e, st') => (inl e, st')
  | (inr _, st') => sweep cfg col l2 st'
  end.
Proof.
  revert st. induction l1 as [|p l1 IH]; intros st; simpl; [done|].
  destruct (page_step cfg col p st) as [[e|[]] st1]; [done|]. apply IH.
Qed.

(** The callback is called at most once per page of the list. *)
Lemma sweep_callback_bound pagenos : ∀ st,
  (length (callback_log (world (sweep cfg col pagenos st).2))
   ≤ length (callback_log (world st)) + length pagenos)%nat.
Proof.
  induction pagenos as [|p ps IH]; intros st; simpl; [lia|].
  pose proof (page_step_progress p st) as Hp. simpl in Hp.
  destruct (page_step cfg col p st) as [[e|[]] st1]; simpl in *.
  - destruct (_ || _); [subst; lia|].
    destruct Hp as [_ ->]. rewrite length_app.
    destruct (callback cfg); simpl; lia.
  - specialize (IH st1).
    destruct (_ || _); [subst; lia|].
    destruct Hp as [_ Hlog]. rewrite Hlog, length_app in IH.
    destruct (callback cfg); simpl in IH; lia.
Qed.

(** A sweep that reaches the end has advanced the bar once for each
    page the filter lets through, and for no other. *)
Lemma sweep_counts_selected pagenos : ∀ st st',
  sweep cfg col pagenos st = (inr tt, st') →
  let sel := List.filter (λ p, negb (filtered_out cfg p)) pagenos in
  bar_n st' = (bar_n st + length sel)%nat
  ∧ callback_log (world st')
    = callback_log (world st)
      ++ (if callback cfg then seq (S (bar_n st)) (length sel) else []).
Proof.
  induction pagenos as [|p ps IH]; intros st st'; simpl.
  - intros [= <-]. split; [lia|]. destruct (callback cfg); by rewrite app_nil_r.
  - pose proof (page_step_progress p st) as Hp. simpl in Hp.
    destruct (page_step cfg col p st) as [[e|[]] st1] eqn:Hstep; [done|].
    rewrite (page_step_returns _ _ _ Hstep) in Hp. simpl in Hp.
    intros Hrest. destruct (IH _ _ Hrest) as [Hn Hlog].
    destruct (filtered_out cfg p); simpl in *.
    + by subst st1.
    + destruct Hp as [Hn1 Hlog1]. rewrite Hn, Hn1. split; [lia|].
      rewrite Hlog, Hlog1, Hn1, <- app_assoc.
      by destruct (callback cfg).
Qed.

(** C3 (as the code has it). A page the filter excludes is skipped
    before the progress bar is touched; every other page that is reached
    without cancellation advances the bar by one and, when a callback was
    passed, calls it once, before any of the page's work.  A sweep that
    completes has therefore advanced the bar once per selected page --
    twice, not three times, for the filter [0; 2] on three pages. *)
Theorem progress_advances_once_per_selected_page :
  (∀ pageno st,
     cancelled cfg pageno = false →
     let st' := (page_step cfg col pageno st).2 in
     if filtered_out cfg pageno
     then st' = st
     else bar_n st' = S (bar_n st)
          ∧ callback_log (world st')
            = callback_log (world st)
              ++ (if callback cfg then [S (bar_n st)] else []))
  ∧ (∀ page_count d w patch st,
       translate_patch cfg col page_count d w = (inr patch, st) →
       bar_n st = length (selected cfg page_count)
       ∧ callback_log (world st)
         = callback_log w
           ++ (if callback cfg
               then seq 1 (length (selected cfg page_count)) else [])).
Proof.
  split.
  - intros pageno st Hc. pose proof (page_step_progress pageno st) as Hp.
    by rewrite Hc in Hp.
  - intros page_count d w patch st. unfold translate_patch.
    destruct (sweep cfg col (seq 0 page_count) _) as [[e|[]] st1] eqn:Hs;
      [done|].
    intros [= _ <-].
    by destruct (sweep_counts_selected _ _ _ Hs) as [Hn Hlog].
Qed.

(** At a page boundary where the event is set the loop raises and
    leaves the state as it found it. *)
Lemma sweep_cancelled_at_boundary is_set k rest st :
  cancellation_event cfg = Some is_set → is_set k = true →
  sweep cfg col (k :: rest) st = (inl (CancelledError "task cancelled"), st).
Proof.
  intros Hev Hset. simpl. rewrite page_step_cancelled; [done|].
  unfold cancelled. by rewrite Hev.
Qed.

(** With the event set at page [k] of [page_count] pages,
    [translate_patch] raises; it raises [CancelledError] when the
    sweep gets as far as page [k]. *)
Lemma translate_patch_cancelled is_set k page_count d w :
  cancellation_event cfg = Some is_set → is_set k = true →
  (k < page_count)%nat →
  let st0 := mkState (total_pages cfg page_count) 0 ∅ ∅ d w in
  (∀ stk, sweep cfg col (seq 0 k) st0 = (inr tt, stk) →
     translate_patch cfg col page_count d w
     = (inl (CancelledError "task cancelled"), stk))
  ∧ ∃ err st, translate_patch cfg col page_count d w = (inl err, st)
      ∧ (length (callback_log (world st))
         ≤ length (callback_log w) + k)%nat.
Proof.
  intros Hev Hset Hk st0. unfold translate_patch. fold st0.
  replace (seq 0 page_count)
    with (seq 0 k ++ k :: seq (S k) (page_count - S k)).
  2:{ change (k :: seq (S k) (page_count - S k))
        with (seq k (S (page_count - S k))).
      rewrite <- seq_app. f_equal. lia. }
  rewrite sweep_app.
  pose proof (sweep_callback_bound (seq 0 k) st0) as Hb.
  rewrite length_seq in Hb.
  destruct (sweep cfg col (seq 0 k) st0) as [[e|[]] stk]; simpl in Hb.
  - split; [done|]. by exists e, stk.
  - rewrite (sweep_cancelled_at_boundary is_set) by done. split.
    + by intros ? [= <-].
    + by eexists _, stk.
Qed.

End SweepFacts.

(** ** The bilingual document *)

Section DualFacts.
Import Py Dual.
Context {A : Type}.
Implicit Types a b c l : list A.

(** Moving a page towards the front: the page behind [a ++ b] is put
    in front of [b]. *)
Lemma move_page_back a b c x :
  move_page (a ++ b ++ x :: c)
            (Z.of_nat (length a + length b)) (Z.of_nat (length a))
  = inr (a ++ x :: b ++ c).
Proof.
  unfold move_page.
  assert (Hlen : length (a ++ b ++ x :: c)
                 = (length a + length b + S (length c))%nat).
  { rewrite !length_app. simpl. lia. }
  rewrite Hlen.
  replace (0 <=? Z.of_nat (length a + length b)) with true
    by (symmetry; apply Z.leb_le; lia).
  replace (Z.of_nat (length a + length b)
           <? Z.of_nat (length a + length b + S (length c))) with true
    by (symmetry; apply Z.ltb_lt; lia).
  replace (-1 <=? Z.of_nat (length a)) with true
    by (symmetry; apply Z.leb_le; lia).
  replace (Z.of_nat (length a)
           <? Z.of_nat (length a + length b + S (length c))) with true
    by (symmetry; apply Z.ltb_lt; lia).
  replace (Z.of_nat (length a) =? -1) with false
    by (symmetry; apply Z.eqb_neq; lia).
  cbn [andb negb]. rewrite !Nat2Z.id.
  assert (Hx : (a ++ b ++ x :: c) !! (length a + length b)%nat = Some x).
  { rewrite app_assoc. apply list_lookup_middle. by rewrite length_app. }
  rewrite Hx.
  replace (length a + length b <? length a)%nat with false
    by (symmetry; apply Nat.ltb_ge; lia).
  f_equal. unfold insert_at, delete_at.
  rewrite take_app_length, drop_app_length.
  replace (a ++ x :: b ++ x :: c) with ((a ++ x :: b) ++ [x] ++ c)
    by (by rewrite <- app_assoc).
  assert (Hl : length (a ++ x :: b) = S (length a + length b)).
  { rewrite length_app. simpl. lia. }
  rewrite take_app_length' by done.
  rewrite app_assoc.
  rewrite drop_app_length'; [by rewrite <- app_assoc|].
  rewrite length_app, Hl. simpl. lia.
Qed.

Lemma interleave_snoc l1 : ∀ l2 x y,
  length l1 = length l2 →
  interleave (l1 ++ [x]) (l2 ++ [y]) = interleave l1 l2 ++ [x; y].
Proof.
  induction l1 as [|u l1 IH]; intros [|v l2] x y Hlen; simpl in *;
    try done.
  f_equal. f_equal. apply IH. lia.
Qed.

Lemma interleave_length l1 : ∀ l2,
  length l1 = length l2 → length (interleave l1 l2) = (2 * length l2)%nat.
Proof.
  induction l1 as [|u l1 IH]; intros [|v l2] Hlen; simpl in *; try done.
  rewrite IH by lia. lia.
Qed.

Lemma interleave_lookup l1 : ∀ l2 k,
  length l1 = length l2 →
  interleave l1 l2 !! (k + k)%nat = l1 !! k
  ∧ ((k < length l2)%nat → interleave l1 l2 !! S (k + k) = l2 !! k).
Proof.
  induction l1 as [|u l1 IH]; intros [|v l2] k Hlen; try done.
  destruct k as [|k]; [split; reflexivity|].
  replace (S k + S k)%nat with (S (S (k + k))) by lia.
  destruct (IH l2 k) as [He Ho]; [simpl in Hlen; lia|].
  split; [exact He|]. intros Hk. apply Ho. simpl in Hk. lia.
Qed.

(** The loop of lines 324-325 after [id] turns: the first [id] pairs
    are in place, the remaining originals and translations follow. *)
Lemma move_pages_interleaves (doc_en doc_zh : list A) todo : ∀ id,
  length doc_en = length doc_zh →
  (id + todo = length doc_zh)%nat →
  move_pages (length doc_zh) id todo
    (interleave (take id doc_en) (take id doc_zh)
     ++ drop id doc_en ++ drop id doc_zh)
  = inr (interleave doc_en doc_zh).
Proof.
  induction todo as [|todo IH]; intros id Hlen Hid; simpl.
  - rewrite !take_ge, !drop_ge by lia. by rewrite !app_nil_r.
  - destruct (lookup_lt_is_Some_2 doc_en id) as [u Hu]; [lia|].
    destruct (lookup_lt_is_Some_2 doc_zh id) as [v Hv]; [lia|].
    rewrite (drop_S _ _ _ Hu), (drop_S _ _ _ Hv).
    set (I := interleave (take id doc_en) (take id doc_zh)).
    assert (HI : length I = (2 * id)%nat).
    { unfold I. rewrite interleave_length; rewrite !length_take; lia. }
    replace (I ++ (u :: drop (S id) doc_en) ++ v :: drop (S id) doc_zh)
      with ((I ++ [u]) ++ drop (S id) doc_en ++ v :: drop (S id) doc_zh)
      by (by rewrite <- !app_assoc).
    replace (Z.of_nat (length doc_zh) + Z.of_nat id)
      with (Z.of_nat (length (I ++ [u]) + length (drop (S id) doc_en)))
      by (rewrite length_app, length_drop, HI; simpl; lia).
    replace (Z.of_nat id * 2 + 1) with (Z.of_nat (length (I ++ [u])))
      by (rewrite length_app, HI; simpl; lia).
    rewrite move_page_back. simpl.
    specialize (IH (S id) Hlen).
    rewrite (take_S_r _ _ _ Hu), (take_S_r _ _ _ Hv) in IH.
    rewrite interleave_snoc in IH by (rewrite !length_take; lia).
    fold I in IH. rewrite <- IH by lia.
    f_equal. by rewrite <- !app_assoc.
Qed.

(** Lines 323-325 never fail on two documents of the same page count,
    and give the pages alternately. *)
Lemma build_dual_interleaves (doc_en doc_zh : list A) :
  length doc_en = length doc_zh →
  build_dual (length doc_zh) doc_en doc_zh = inr (interleave doc_en doc_zh).
Proof.
  intros Hlen. unfold build_dual, insert_file.
  by apply (move_pages_interleaves doc_en doc_zh (length doc_zh) 0%nat).
Qed.

End DualFacts.

(** ** [translate_stream] *)

Section StreamFacts.
Import Py Fonts Patcher Sweep Dual Stream.

(** C2. When [translate_stream] returns, the mono document has the
    pages of the original, the dual document has twice as many, page
    [2k] of the dual is page [k] of the original and page [2k+1] is the
    copy of page [k] of the mono document; the dual page list is what
    appending the translated pages and moving appended page [k] to
    position [2k+1] gives. *)
Theorem dual_output_interleaves e lib col cfg stream w mono dual w' :
  translate_stream e lib col cfg stream w = (inr (mono, dual), w') →
  ∃ doc_en,
    open_document lib stream = inr doc_en
    ∧ doc_pages mono = doc_pages doc_en
    ∧ build_dual (length (doc_pages mono)) (doc_pages doc_en)
                 (graft lib mono <$> doc_pages mono)
      = inr (doc_pages dual)
    ∧ length (doc_pages dual) = (2 * length (doc_pages mono))%nat
    ∧ ∀ k, (k < length (doc_pages mono))%nat →
        doc_pages dual !! (2 * k)%nat = doc_pages doc_en !! k
        ∧ doc_pages dual !! (2 * k + 1)%nat
          = graft lib mono <$> (doc_pages mono !! k).
Proof.
  unfold translate_stream.
  destruct (resolve_font e w) as [[err|font_path] w1]; [done|].
  destruct (open_document lib stream) as [err|doc_en]; [done|].
  destruct (register_fonts _ _ _ _ _) as [err|[font_id d1]]; [done|].
  destruct (patch_resources _ _ _) as [[err|[]] scan]; [done|].
  destruct (translate_patch _ _ _ _ _) as [[err|obj_patch] st]; [done|].
  destruct (apply_patches _ _ _) as [err|d3]; [done|].
  cbn [doc_pages].
  assert (Hlen : length (doc_pages doc_en)
                 = length (graft lib (mkDoc (doc_pages doc_en) d3)
                           <$> doc_pages doc_en)).
  { by rewrite length_fmap. }
  pose proof (build_dual_interleaves _ _ Hlen) as Hdual.
  rewrite length_fmap in Hdual. rewrite Hdual.
  intros [= <- <- <-]. exists doc_en. cbn [doc_pages].
  split; [done|]. split; [done|]. split; [done|].
  split.
  { rewrite interleave_length by done. by rewrite length_fmap. }
  intros k Hk.
  destruct (interleave_lookup (doc_pages doc_en)
              (graft lib (mkDoc (doc_pages doc_en) d3) <$> doc_pages doc_en)
              k Hlen) as [He Ho].
  replace (2 * k)%nat with (k + k)%nat by lia.
  replace (k + k + 1)%nat with (S (k + k)) by lia.
  split; [exact He|].
  rewrite Ho by (rewrite length_fmap; lia).
  by rewrite list_lookup_fmap.
Qed.

Lemma dual_output_interleaves_witness :
  ∃ mono dual w',
    translate_stream linux_env ten_pages idle (mkConfig None true None)
                     "%PDF" font_world = (inr (mono, dual), w')
    ∧ length (doc_pages dual) = (2 * length (doc_pages mono))%nat.
Proof.
  destruct (translate_stream linux_env ten_pages idle (mkConfig None true None)
              "%PDF" font_world) as [[err|[mono dual]] w'] eqn:Hrun.
  - exfalso. vm_compute in Hrun. discriminate Hrun.
  - exists mono, dual, w'. split; [reflexivity|].
    destruct (dual_output_interleaves _ _ _ _ _ _ _ _ _ Hrun)
      as (doc_en & _ & _ & _ & Hlen & _).
    exact Hlen.
Defined.

(** C4. If the cancellation event is set when the sweep reaches the
    boundary of page [k], the loop raises [CancelledError] there with
    the state untouched; [translate_patch] on a document that has a page
    [k] never returns an object patch map, and has called the callback
    at most [k] times (fewer than the page count); and [translate_stream]
    raises instead of returning its two documents. *)
Theorem cancellation_aborts_the_sweep cfg col is_set k :
  cancellation_event cfg = Some is_set → is_set k = true →
  (∀ rest st,
     sweep cfg col (k :: rest) st
     = (inl (CancelledError "task cancelled"), st))
  ∧ (∀ page_count d w,
       (k < page_count)%nat →
       (∀ stk,
          sweep cfg col (seq 0 k)
                (mkState (total_pages cfg page_count) 0 ∅ ∅ d w)
          = (inr tt, stk) →
          translate_patch cfg col page_count d w
          = (inl (CancelledError "task cancelled"), stk))
       ∧ ∃ err st,
           translate_patch cfg col page_count d w = (inl err, st)
           ∧ (length (callback_log (world st))
              < length (callback_log w) + page_count)%nat)
  ∧ (∀ e lib stream w,
       (∀ doc, open_document lib stream = inr doc →
               (k < length (doc_pages doc))%nat) →
       ∃ err w', translate_stream e lib col cfg stream w = (inl err, w')).
Proof.
  intros Hev Hset. split; [|split].
  - intros rest st. by apply (sweep_cancelled_at_boundary cfg col is_set).
  - intros page_count d w Hk.
    destruct (translate_patch_cancelled cfg col is_set k page_count d w
                Hev Hset Hk) as [Hat (err & st & Hrun & Hlog)].
    split; [exact Hat|]. exists err, st. split; [done|lia].
  - intros e lib stream w Hpages. unfold translate_stream.
    destruct (resolve_font e w) as [[err|font_path] w1]; [by eexists _, _|].
    destruct (open_document lib stream) as [err|doc_en] eqn:Hopen;
      [by eexists _, _|].
    destruct (register_fonts _ _ _ _ _) as [err|[font_id d1]];
      [by eexists _, _|].
    destruct (patch_resources _ _ _) as [[err|[]] scan]; [by eexists _, _|].
    destruct (translate_patch_cancelled cfg col is_set k
                (length (doc_pages doc_en)) (doc scan) w1 Hev Hset
                (Hpages _ eq_refl)) as [_ (err & st & -> & _)].
    by eexists _, _.
Qed.

Lemma cancellation_aborts_the_sweep_witness :
  ∃ st,
    translate_patch (mkConfig None true (Some (λ pageno, 5 <=? pageno)%nat))
                    idle 10 empty_store empty_world
    = (inl (CancelledError "task cancelled"), st)
    ∧ length (callback_log (world st)) = 5%nat.
Proof.
  destruct (cancellation_aborts_the_sweep
              (mkConfig None true (Some (λ pageno, 5 <=? pageno)%nat))
              idle (λ pageno, 5 <=? pageno)%nat 5%nat)
    as (_ & Hpatch & _).
  - reflexivity.
  - reflexivity.
  - destruct (Hpatch 10%nat empty_store empty_world) as [Hat _]; [lia|].
    eexists. split.
    + apply Hat. vm_compute. reflexivity.
    + vm_compute. reflexivity.
Defined.



End StreamFacts.

(** ** [check_files] and [translate] *)

Section FilesFacts.
Import Py Files.

Lemma filter_filter {A} (p q : A → bool) l :
  List.filter q (List.filter p l) = List.filter (λ x, p x && q x) l.
Proof.
  induction l as [|x l IH]; simpl; [done|].
  destruct (p x); simpl; [|done].
  destruct (q x); by rewrite IH.
Qed.

(** C10. [check_files] returns, in order, the entries that start with
    neither ["http://"] nor ["https://"] and do not exist, so a URL is
    never reported missing; and in the loop of [translate] the test
    [file is str] is false for every string, so no entry is downloaded:
    each goes straight to the local open (or to the PDF/A conversion of
    the local path). *)
Theorem check_files_and_dead_download_branch w :
  (∀ files,
     check_files w files
     = List.filter (λ f, negb (startswith f "http://")
                         && negb (startswith f "https://")
                         && negb (exists_ w f)) files)
  ∧ (∀ files f,
       f ∈ check_files w files →
       f ∈ files ∧ startswith f "http://" = false
       ∧ startswith f "https://" = false ∧ exists_ w f = false)
  ∧ (∀ file, py_is (PyStr file) PyClassStr = false)
  ∧ (∀ compatible tmp_name file,
       file_actions compatible tmp_name file
       = [if compatible then ConvertToPdfa file else OpenLocal file]).
Proof.
  assert (Hcf : ∀ files,
     check_files w files
     = List.filter (λ f, negb (startswith f "http://")
                         && negb (startswith f "https://")
                         && negb (exists_ w f)) files).
  { intros files. unfold check_files. rewrite !filter_filter.
    apply filter_ext. intros f. by rewrite andb_assoc. }
  split; [exact Hcf|]. split; [|split].
  - intros files f Hin. rewrite Hcf in Hin.
    apply list_elem_of_In, filter_In in Hin as [Hin Hf].
    apply andb_true_iff in Hf as [Hf He].
    apply andb_true_iff in Hf as [Hh Hs].
    apply negb_true_iff in Hh, Hs, He.
    by rewrite list_elem_of_In.
  - done.
  - done.
Qed.

Lemma check_files_and_dead_download_branch_witness :
  "paper.pdf" ∈ ["paper.pdf"; "https://example.org/paper.pdf"]
  ∧ startswith "paper.pdf" "http://" = false
  ∧ startswith "paper.pdf" "https://" = false
  ∧ exists_ Sweep.empty_world "paper.pdf" = false.
Proof.
  apply (proj1 (proj2 (check_files_and_dead_download_branch Sweep.empty_world))
           ["paper.pdf"; "https://example.org/paper.pdf"] "paper.pdf").
  assert (Hmissing :
    check_files Sweep.empty_world ["paper.pdf"; "https://example.org/paper.pdf"]
    = ["paper.pdf"]) by (vm_compute; reflexivity).
  rewrite Hmissing. left.
Defined.

(** A URL passes [check_files] and is opened as a local path. *)
Example url_is_opened_locally :
  translate_inputs Sweep.empty_world false "/tmp/tmpab12.pdf"
                   ["https://example.org/paper.pdf"]
  = inr [[OpenLocal "https://example.org/paper.pdf"]].
Proof. vm_compute. reflexivity. Qed.

End FilesFacts.

(** C3, as first stated, fails: with the filter [0; 2] on a three-page
    document the bar is advanced twice and the callback called twice,
    not three times. *)
Lemma filtered_page_does_not_advance_progress :
  let st := (Sweep.translate_patch (Sweep.mkConfig (Some [0; 2]) true None)
               Sweep.idle 3 Sweep.empty_store Sweep.empty_world).2 in
  Sweep.bar_n st = 2%nat
  ∧ Py.callback_log (Sweep.world st) = [1; 2]%nat
  ∧ Sweep.bar_n st ≠ 3%nat.
Proof. vm_compute. repeat split; discriminate. Qed.

Lemma progress_advances_once_per_selected_page_witness :
  let cfg := Sweep.mkConfig (Some [0; 2]) true None in
  let run := Sweep.translate_patch cfg Sweep.idle 3 Sweep.empty_store
               Sweep.empty_world in
  Sweep.bar_n run.2 = length (Sweep.selected cfg 3)
  ∧ Py.callback_log (Sweep.world run.2)
    = Py.callback_log Sweep.empty_world
      ++ seq 1 (length (Sweep.selected cfg 3)).
Proof.
  intros cfg run.
  apply (proj2 (progress_advances_once_per_selected_page cfg Sweep.idle)
           3%nat Sweep.empty_store Sweep.empty_world ∅ run.2).
  vm_compute. reflexivity.
Defined.

(* ===================================================================== *)
(** * Part III: further properties of the code *)
(* ===================================================================== *)

(** ** The layout mask, cell by cell *)

Section MaskCellFacts.
Import Mask MaskCells.

Lemma in_rect_slices (h w : nat) d (r c : nat) x0 y0 x1 y1 :
  rect (Z.of_nat h) (Z.of_nat w) d = (x0, y0, x1, y1) →
  in_slice (Z.of_nat h) y0 y1 r && in_slice (Z.of_nat w) x0 x1 c
  = in_rect (Z.of_nat h) (Z.of_nat w) d r c.
Proof.
  intros Hrect. unfold in_rect. rewrite Hrect.
  unfold rect in Hrect. destruct (xyxy d) as [[[a0 b0] a1] b1].
  injection Hrect as <- <- <- <-.
  apply eq_true_iff_eq.
  rewrite !andb_true_iff, !in_slice_clipped, !Z.leb_le, !Z.ltb_lt. tauto.
Qed.

(** One assignment [box[y0:y1, x0:x1] = v], seen from one cell. *)
Lemma paint_rect_cell (h w : nat) d v m (r c : nat) :
  shaped h w m → (r < h)%nat → (c < w)%nat →
  cell (paint_rect (Z.of_nat h) (Z.of_nat w) d v m) r c
  = if in_rect (Z.of_nat h) (Z.of_nat w) d r c then Some v else cell m r c.
Proof.
  intros Hs Hr Hc. unfold paint_rect.
  destruct (rect _ _ d) as [[[x0 y0] x1] y1] eqn:Hrect.
  rewrite (paint_cell h w) by done.
  rewrite (in_rect_slices h w d r c x0 y0 x1 y1 Hrect).
  destruct (in_rect _ _ d r c); [|done].
  by destruct (shaped_cell_is_Some h w m r c Hs Hr Hc) as [z ->].
Qed.

Lemma paint_translatable_cell nm (h w : nat) bs (r c : nat) : ∀ i m m' v,
  shaped h w m → (r < h)%nat → (c < w)%nat →
  paint_translatable nm (Z.of_nat h) (Z.of_nat w) i bs m = Some m' →
  cell m r c = Some v →
  cell m' r c
  = Some (translatable_value nm (Z.of_nat h) (Z.of_nat w) i bs r c v).
Proof.
  induction bs as [|d bs IH]; intros i m m' v Hs Hr Hc; simpl.
  - by intros [= <-].
  - destruct (preserved nm d) as [p|]; simpl; [|done].
    intros Hrun Hv. eapply IH; [| | |exact Hrun|]; try done.
    + destruct p; simpl; [done|by apply paint_rect_shaped].
    + destruct p; simpl; [done|].
      rewrite paint_rect_cell by done. by destruct (in_rect _ _ d r c).
Qed.

Lemma paint_preserved_cell nm (h w : nat) bs (r c : nat) : ∀ m m' v,
  shaped h w m → (r < h)%nat → (c < w)%nat →
  paint_preserved nm (Z.of_nat h) (Z.of_nat w) bs m = Some m' →
  cell m r c = Some v →
  cell m' r c = Some (preserved_value nm (Z.of_nat h) (Z.of_nat w) bs r c v).
Proof.
  induction bs as [|d bs IH]; intros m m' v Hs Hr Hc; simpl.
  - by intros [= <-].
  - destruct (preserved nm d) as [p|]; simpl; [|done].
    intros Hrun Hv. eapply IH; [| | |exact Hrun|]; try done.
    + destruct p; simpl; [by apply paint_rect_shaped|done].
    + destruct p; simpl; [|done].
      rewrite paint_rect_cell by done. by destruct (in_rect _ _ d r c).
Qed.

Lemma ones_cell (h w r c : nat) :
  (r < h)%nat → (c < w)%nat →
  cell (replicate h (replicate w 1)) r c = Some 1.
Proof.
  intros Hr Hc. unfold cell.
  rewrite lookup_replicate_2 by done. by apply lookup_replicate_2.
Qed.

(** Every cell of the finished mask is the result of running the two
    loops on that cell alone. *)
Lemma layout_mask_cell pix_height pix_width page_layout m (r c : nat) :
  layout_mask pix_height pix_width page_layout = Some m →
  (r < pix_height)%nat → (c < pix_width)%nat →
  cell m r c
  = Some (preserved_value (names page_layout)
            (Z.of_nat pix_height) (Z.of_nat pix_width) (boxes page_layout) r c
            (translatable_value (names page_layout)
               (Z.of_nat pix_height) (Z.of_nat pix_width) 0
               (boxes page_layout) r c 1)).
Proof.
  unfold layout_mask. intros Hm Hr Hc.
  destruct (paint_translatable _ _ _ _ _ _) as [m1|] eqn:E1; simpl in Hm;
    [|done].
  pose proof (paint_translatable_shaped _ _ _ _ _ _ _ (shaped_ones _ _) E1)
    as Hs1.
  eapply paint_preserved_cell; [exact Hs1|done|done|exact Hm|].
  eapply paint_translatable_cell; [apply shaped_ones|done|done|exact E1|].
  by apply ones_cell.
Qed.

(** A class index that is not in the table stops the builder, even
    though the box before it could be painted. *)
Example layout_mask_missing_class : layout_mask 4 4 missing_class = None.
Proof. vm_compute. reflexivity. Qed.

Lemma in_rect_inside (h w : nat) d (r c : nat) :
  in_rect (Z.of_nat h) (Z.of_nat w) d r c = true → (r < h)%nat ∧ (c < w)%nat.
Proof.
  unfold in_rect, rect. destruct (xyxy d) as [[[a0 b0] a1] b1].
  rewrite !andb_true_iff, !Z.leb_le, !Z.ltb_lt. unfold np_clip. lia.
Qed.

(** No slice reaches the last row or the last column. *)
Lemma in_rect_border (h w : nat) d (r c : nat) :
  (S r = h ∨ S c = w) → in_rect (Z.of_nat h) (Z.of_nat w) d r c = false.
Proof.
  intros Hb. apply not_true_is_false. unfold in_rect, rect.
  destruct (xyxy d) as [[[a0 b0] a1] b1].
  rewrite !andb_true_iff, !Z.leb_le, !Z.ltb_lt. unfold np_clip. lia.
Qed.

Lemma translatable_value_skip nm h w bs r c : ∀ i v,
  (∀ d, d ∈ bs →
        negb (default false (preserved nm d)) && in_rect h w d r c = false) →
  translatable_value nm h w i bs r c v = v.
Proof.
  induction bs as [|d bs IH]; intros i v Hout; simpl; [done|].
  rewrite (Hout d) by by left.
  apply IH. intros d' Hd'. apply Hout. by right.
Qed.

Lemma translatable_value_outside nm h w bs r c i v :
  (∀ d, d ∈ bs → in_rect h w d r c = false) →
  translatable_value nm h w i bs r c v = v.
Proof.
  intros Hout. apply translatable_value_skip.
  intros d Hd. rewrite (Hout d Hd). apply andb_false_r.
Qed.

Lemma preserved_value_outside nm h w bs r c : ∀ v,
  (∀ d, d ∈ bs → default false (preserved nm d) && in_rect h w d r c = false) →
  preserved_value nm h w bs r c v = v.
Proof.
  induction bs as [|d bs IH]; intros v Hout; simpl; [done|].
  rewrite (Hout d) by by left.
  apply IH. intros d' Hd'. apply Hout. by right.
Qed.

(** The last translatable box over a cell decides what the first loop
    leaves there. *)
Lemma translatable_value_last nm h w bs r c : ∀ i v k d,
  bs !! k = Some d →
  negb (default false (preserved nm d)) && in_rect h w d r c = true →
  (∀ j d', bs !! j = Some d' → (k < j)%nat →
           negb (default false (preserved nm d')) && in_rect h w d' r c
           = false) →
  translatable_value nm h w i bs r c v = i + Z.of_nat k + 2.
Proof.
  induction bs as [|d0 bs IH]; intros i v k d Hk Hin Hlater; [done|].
  destruct k as [|k]; simpl in *.
  - injection Hk as ->. rewrite Hin.
    rewrite translatable_value_skip; [lia|].
    intros d' [j Hj]%list_elem_of_lookup.
    apply (Hlater (S j) d'); [done|lia].
  - rewrite (IH (i + 1) _ k d Hk Hin); [lia|].
    intros j d' Hj Hlt. apply (Hlater (S j) d'); [done|lia].
Qed.

(** What the first loop can leave in a cell: the old value, or the
    number of a translatable box over the cell. *)
Lemma translatable_value_range nm h w bs r c : ∀ i v,
  translatable_value nm h w i bs r c v = v
  ∨ ∃ k d, bs !! k = Some d
           ∧ default false (preserved nm d) = false
           ∧ in_rect h w d r c = true
           ∧ translatable_value nm h w i bs r c v = i + Z.of_nat k + 2.
Proof.
  induction bs as [|d bs IH]; intros i v; simpl; [by left|].
  destruct (IH (i + 1)
              (if negb (default false (preserved nm d)) && in_rect h w d r c
               then i + 2 else v)) as [Hsame|(k & d' & Hk & Hp & Hin & Hv)].
  - rewrite Hsame.
    destruct (negb (default false (preserved nm d)) && in_rect h w d r c)
      eqn:Hd; [|by left].
    apply andb_true_iff in Hd as [Hp Hin]. apply negb_true_iff in Hp.
    right. exists 0%nat, d. repeat split; try done. lia.
  - right. exists (S k), d'. repeat split; try done. rewrite Hv. lia.
Qed.

Lemma preserved_value_range nm h w bs r c : ∀ v,
  preserved_value nm h w bs r c v = v ∨ preserved_value nm h w bs r c v = 0.
Proof.
  induction bs as [|d bs IH]; intros v; simpl; [by left|].
  destruct (default false (preserved nm d) && in_rect h w d r c);
    [|apply IH].
  destruct (IH 0); by right.
Qed.

(** The builder raises [KeyError] exactly when the class index of some
    box is not in the name table. *)
Lemma paint_translatable_None nm h w bs : ∀ i m,
  paint_translatable nm h w i bs m = None
  ↔ Exists (λ d, nm !! py_int (cls d) = None) bs.
Proof.
  induction bs as [|d bs IH]; intros i m; simpl.
  - split; [done|]. intros H. inversion H.
  - unfold preserved. destruct (nm !! py_int (cls d)) as [n|] eqn:Hn; simpl.
    + rewrite IH. split; [by right|].
      intros H. inversion H as [?? Hd|?? Hrest]; subst; [congruence|done].
    + split; [by left|done].
Qed.

Lemma paint_preserved_None nm h w bs : ∀ m,
  paint_preserved nm h w bs m = None
  ↔ Exists (λ d, nm !! py_int (cls d) = None) bs.
Proof.
  induction bs as [|d bs IH]; intros m; simpl.
  - split; [done|]. intros H. inversion H.
  - unfold preserved. destruct (nm !! py_int (cls d)) as [n|] eqn:Hn; simpl.
    + rewrite IH. split; [by right|].
      intros H. inversion H as [?? Hd|?? Hrest]; subst; [congruence|done].
    + split; [by left|done].
Qed.

Lemma layout_mask_None pix_height pix_width page_layout :
  layout_mask pix_height pix_width page_layout = None
  ↔ Exists (λ d, names page_layout !! py_int (cls d) = None)
           (boxes page_layout).
Proof.
  unfold layout_mask.
  destruct (paint_translatable _ _ _ _ _ _) as [m1|] eqn:E1; simpl.
  - rewrite paint_preserved_None. done.
  - apply paint_translatable_None in E1. done.
Qed.

Lemma layout_mask_shaped pix_height pix_width page_layout m :
  layout_mask pix_height pix_width page_layout = Some m →
  shaped pix_height pix_width m.
Proof.
  unfold layout_mask. intros Hm.
  destruct (paint_translatable _ _ _ _ _ _) as [m1|] eqn:E1; simpl in Hm;
    [|done].
  pose proof (paint_translatable_shaped _ _ _ _ _ _ _ (shaped_ones _ _) E1)
    as Hs1.
  by destruct (paint_preserved_zero _ _ _ _ _ _ Hs1 Hm) as (? & _).
Qed.

(** X1. The mask builder of [translate_patch] fails (a [KeyError] from
    [page_layout.names]) exactly when the class index of some detection
    is missing from the name table; otherwise it returns a mask with the
    pixmap's height and width. *)
Theorem layout_mask_fails_iff_class_missing pix_height pix_width page_layout :
  (layout_mask pix_height pix_width page_layout = None
   ↔ Exists (λ d, names page_layout !! py_int (cls d) = None)
            (boxes page_layout))
  ∧ (∀ m, layout_mask pix_height pix_width page_layout = Some m →
          shaped pix_height pix_width m).
Proof.
  split.
  - unfold layout_mask.
    destruct (paint_translatable _ _ _ _ _ _) as [m1|] eqn:E1; simpl.
    + rewrite paint_preserved_None. done.
    + apply paint_translatable_None in E1. done.
  - unfold layout_mask. intros m Hm.
    destruct (paint_translatable _ _ _ _ _ _) as [m1|] eqn:E1; simpl in Hm;
      [|done].
    pose proof (paint_translatable_shaped _ _ _ _ _ _ _ (shaped_ones _ _) E1)
      as Hs1.
    by destruct (paint_preserved_zero _ _ _ _ _ _ Hs1 Hm) as (? & _).
Qed.

(** X2. A cell that lies in the slice of no detection keeps the initial
    value 1; in particular the last row and the last column of the mask
    are 1 whatever the detector found. *)
Theorem layout_mask_outside_boxes pix_height pix_width page_layout m (r c : nat) :
  layout_mask pix_height pix_width page_layout = Some m →
  (r < pix_height)%nat → (c < pix_width)%nat →
  ((∀ d, d ∈ boxes page_layout →
         in_rect (Z.of_nat pix_height) (Z.of_nat pix_width) d r c = false)
   ∨ S r = pix_height ∨ S c = pix_width) →
  cell m r c = Some 1.
Proof.
  intros Hm Hr Hc Hout.
  assert (Hno : ∀ d, d ∈ boxes page_layout →
            in_rect (Z.of_nat pix_height) (Z.of_nat pix_width) d r c = false).
  { destruct Hout as [Hout|Hb]; [done|]. intros d _. by apply in_rect_border. }
  rewrite (layout_mask_cell _ _ _ _ _ _ Hm Hr Hc).
  rewrite translatable_value_outside by done.
  rewrite preserved_value_outside; [done|].
  intros d Hd. rewrite (Hno d Hd). apply andb_false_r.
Qed.

Lemma layout_mask_outside_boxes_witness :
  ∃ m, layout_mask 6 6 two_blocks = Some m ∧ cell m 1 1 = Some 1.
Proof.
  destruct (layout_mask 6 6 two_blocks) as [m|] eqn:Hm.
  - exists m. split; [reflexivity|].
    apply (layout_mask_outside_boxes 6 6 two_blocks m 1 1 Hm); [lia|lia|].
    left. intros d Hd. unfold two_blocks in Hd. simpl in Hd.
    apply elem_of_cons in Hd as [->|Hd]; [vm_compute; reflexivity|].
    apply elem_of_cons in Hd as [->|Hd]; [vm_compute; reflexivity|].
    by apply elem_of_nil in Hd.
  - exfalso. vm_compute in Hm. discriminate Hm.
Defined.

(** X3. Among translatable boxes the last one in detector order wins:
    a cell in the slice of translatable box [k], in the slice of no
    preserve-class box and of no translatable box after [k], holds
    [k + 2]. *)
Theorem layout_mask_last_translatable_wins
    pix_height pix_width page_layout m (k : nat) d (r c : nat) :
  layout_mask pix_height pix_width page_layout = Some m →
  boxes page_layout !! k = Some d →
  preserved (names page_layout) d = Some false →
  in_rect (Z.of_nat pix_height) (Z.of_nat pix_width) d r c = true →
  (∀ j d', boxes page_layout !! j = Some d' →
           in_rect (Z.of_nat pix_height) (Z.of_nat pix_width) d' r c = true →
           preserved (names page_layout) d' = Some false ∧ (j ≤ k)%nat) →
  cell m r c = Some (Z.of_nat k + 2).
Proof.
  intros Hm Hk Hp Hin Hothers.
  destruct (in_rect_inside _ _ _ _ _ Hin) as [Hr Hc].
  rewrite (layout_mask_cell _ _ _ _ _ _ Hm Hr Hc).
  rewrite (translatable_value_last _ _ _ _ _ _ 0 1 k d Hk).
  - rewrite preserved_value_outside; [f_equal; lia|].
    intros d' [j Hj]%list_elem_of_lookup.
    destruct (in_rect _ _ d' r c) eqn:Hin'; [|apply andb_false_r].
    destruct (Hothers j d' Hj Hin') as [-> _]. done.
  - by rewrite Hp, Hin.
  - intros j d' Hj Hlt.
    destruct (in_rect _ _ d' r c) eqn:Hin'; [|apply andb_false_r].
    destruct (Hothers j d' Hj Hin') as [_ Hle]. lia.
Qed.

Lemma layout_mask_last_translatable_wins_witness :
  ∃ m, layout_mask 6 6 two_blocks = Some m ∧ cell m 4 2 = Some 3.
Proof.
  destruct (layout_mask 6 6 two_blocks) as [m|] eqn:Hm.
  - exists m. split; [reflexivity|].
    apply (layout_mask_last_translatable_wins 6 6 two_blocks m 1
             (mkBox (2#1, 0#1, 4#1, 2#1)%Q (0#1)%Q) 4 2 Hm).
    + reflexivity.
    + vm_compute. reflexivity.
    + vm_compute. reflexivity.
    + intros j d' Hj _. unfold two_blocks in Hj. simpl in Hj.
      destruct j as [|[|j]]; simpl in Hj; [| |done].
      * injection Hj as <-. split; [vm_compute; reflexivity|lia].
      * injection Hj as <-. split; [vm_compute; reflexivity|lia].
  - exfalso. vm_compute in Hm. discriminate Hm.
Defined.

(** X4. Every cell of the mask holds 0, 1, or [k + 2] for a translatable
    detection [k] whose slice contains the cell; so the values lie
    between 0 and the number of detections plus one. *)
Theorem layout_mask_values pix_height pix_width page_layout m (r c : nat) v :
  layout_mask pix_height pix_width page_layout = Some m →
  cell m r c = Some v →
  (v = 0 ∨ v = 1
   ∨ ∃ k d, boxes page_layout !! k = Some d
            ∧ preserved (names page_layout) d = Some false
            ∧ in_rect (Z.of_nat pix_height) (Z.of_nat pix_width) d r c = true
            ∧ v = Z.of_nat k + 2)
  ∧ 0 ≤ v ≤ Z.of_nat (length (boxes page_layout)) + 1.
Proof.
  intros Hm Hv.
  destruct (layout_mask_shaped _ _ _ m Hm) as [Hl Hrows].
  assert (Hr : (r < pix_height)%nat).
  { unfold cell in Hv. destruct (m !! r) eqn:E; [|done].
    apply lookup_lt_Some in E. lia. }
  assert (Hc : (c < pix_width)%nat).
  { unfold cell in Hv. destruct (m !! r) eqn:E; [|done].
    apply lookup_lt_Some in Hv. rewrite (Hrows _ _ E) in Hv. lia. }
  assert (Hall : ∀ d, d ∈ boxes page_layout →
            is_Some (preserved (names page_layout) d)).
  { intros d Hd.
    destruct (preserved (names page_layout) d) eqn:Hp; [by eexists|].
    exfalso.
    assert (Hnone : layout_mask pix_height pix_width page_layout = None).
    { apply layout_mask_None.
      apply Exists_exists. exists d. split; [done|].
      unfold preserved in Hp. by destruct (names page_layout !! _). }
    congruence. }
  rewrite (layout_mask_cell _ _ _ _ _ _ Hm Hr Hc) in Hv. injection Hv as <-.
  set (t := translatable_value _ _ _ 0 _ r c 1).
  assert (Ht : t = 1
               ∨ ∃ k d, boxes page_layout !! k = Some d
                        ∧ preserved (names page_layout) d = Some false
                        ∧ in_rect (Z.of_nat pix_height) (Z.of_nat pix_width)
                                  d r c = true
                        ∧ t = Z.of_nat k + 2).
  { destruct (translatable_value_range (names page_layout)
                (Z.of_nat pix_height) (Z.of_nat pix_width)
                (boxes page_layout) r c 0 1)
      as [Hsame|(k & d & Hk & Hp & Hin & Hval)]; [by left|].
    right. exists k, d. repeat split; try done.
    destruct (Hall d) as [p Hp']; [by eapply list_elem_of_lookup_2|].
    rewrite Hp' in Hp. simpl in Hp. by subst p. }
  destruct (preserved_value_range (names page_layout)
              (Z.of_nat pix_height) (Z.of_nat pix_width)
              (boxes page_layout) r c t) as [-> | ->].
  - destruct Ht as [->|(k & d & Hk & Hp & Hin & ->)].
    + split; [by right; left|lia].
    + split; [right; right; by exists k, d|].
      apply lookup_lt_Some in Hk. lia.
  - split; [by left|lia].
Qed.

Lemma layout_mask_values_witness :
  ∃ m, layout_mask 6 6 two_blocks = Some m
       ∧ 0 ≤ 3 ≤ Z.of_nat (length (boxes two_blocks)) + 1.
Proof.
  destruct (layout_mask 6 6 two_blocks) as [m|] eqn:Hm.
  - exists m. split; [reflexivity|].
    apply (layout_mask_values 6 6 two_blocks m 4 2 3 Hm).
    vm_compute in Hm. injection Hm as <-. reflexivity.
  - exfalso. vm_compute in Hm. discriminate Hm.
Defined.

End MaskCellFacts.

(** ** The rectangle of a preserve-class box *)

Section MaskRectangleFacts.
Import Mask MaskCells.

(** The cells of a box's rectangle are cells of the mask. *)
Lemma in_rectangle_inside (h w : nat) d (r c : nat) :
  in_rectangle (Z.of_nat h) (Z.of_nat w) d r c = true →
  (r < h)%nat ∧ (c < w)%nat.
Proof.
  unfold in_rectangle, rect. destruct (xyxy d) as [[[a0 b0] a1] b1].
  rewrite !andb_true_iff, !Z.leb_le. unfold np_clip. lia.
Qed.

(** The slice a box assigns is its rectangle without row [y1] and
    column [x1]. *)
Lemma in_rect_in_rectangle (h w : Z) d (r c : nat) x0 y0 x1 y1 :
  rect h w d = (x0, y0, x1, y1) →
  in_rect h w d r c
  = in_rectangle h w d r c
    && negb (Z.of_nat r =? y1) && negb (Z.of_nat c =? x1).
Proof.
  intros Hrect. unfold in_rect, in_rectangle. rewrite Hrect.
  apply eq_true_iff_eq.
  rewrite !andb_true_iff, !negb_true_iff, !Z.leb_le, !Z.ltb_lt, !Z.eqb_neq.
  lia.
Qed.

(** C1.  The claim fails at the border of the mask.  The coordinates of
    a box are clipped to the last row [h - 1] and the last column
    [w - 1] and then used as the exclusive ends of the slice that is
    set to 0, so a cell of a preserve-class box's clamped,
    one-pixel-expanded rectangle that lies in the last row or in the
    last column of the mask is never assigned: it holds the initial 1,
    not 0, whatever the other detections are. *)
Theorem preserve_rectangle_border_keeps_one
    (pix_height pix_width : nat) (page_layout : YoloResult) (m : mask)
    (i : nat) (d : YoloBox) (name : string) (r c : nat) :
  layout_mask pix_height pix_width page_layout = Some m →
  boxes page_layout !! i = Some d →
  names page_layout !! py_int (cls d) = Some name →
  name ∈ vcls →
  in_rectangle (Z.of_nat pix_height) (Z.of_nat pix_width) d r c = true →
  S r = pix_height ∨ S c = pix_width →
  cell m r c = Some 1.
Proof.
  intros Hm _ _ _ Hin Hb.
  destruct (in_rectangle_inside _ _ _ _ _ Hin) as [Hr Hc].
  rewrite (layout_mask_cell _ _ _ _ _ _ Hm Hr Hc).
  rewrite translatable_value_outside
    by (intros d' _; by apply in_rect_border).
  rewrite preserved_value_outside; [done|].
  intros d' _. rewrite in_rect_border by done. apply andb_false_r.
Qed.

(** A figure over the whole 4x4 page: its rectangle is the whole mask,
    and the seven cells of the last row and the last column hold 1. *)
Lemma preserve_rectangle_border_keeps_one_witness :
  layout_mask 4 4 page_figure_layout
    = Some [[0;0;0;1]; [0;0;0;1]; [0;0;0;1]; [1;1;1;1]]
  ∧ rect 4 4 page_figure = (0, 0, 3, 3)
  ∧ cell [[0;0;0;1]; [0;0;0;1]; [0;0;0;1]; [1;1;1;1]] 3 3 = Some 1.
Proof.
  split; [vm_compute; reflexivity|]. split; [vm_compute; reflexivity|].
  apply (preserve_rectangle_border_keeps_one 4 4 page_figure_layout _ 0
           page_figure "figure" 3 3).
  - vm_compute; reflexivity.
  - reflexivity.
  - vm_compute; reflexivity.
  - unfold vcls. set_solver.
  - vm_compute; reflexivity.
  - left. reflexivity.
Defined.

End MaskRectangleFacts.

(** ** Font lookup, further *)

Section FontLookupFacts.
Import Py Fonts FontSamples.

Lemma scan_filenames_first w p font_name font_path system_fonts
    before filename after :
  (∀ fn, fn ∈ before → exists_ w (path_join p font_path fn) = false) →
  exists_ w (path_join p font_path filename) = true →
  scan_filenames w p font_name font_path (before ++ filename :: after)
                 system_fonts
  = <[ font_name := path_join p font_path filename ]> system_fonts.
Proof.
  intros Hbefore Hhit. induction before as [|fn before IH]; simpl.
  - by rewrite Hhit.
  - rewrite (Hbefore fn) by by left. apply IH.
    intros fn' Hfn'. apply Hbefore. by right.
Qed.

Lemma scan_filenames_miss w p font_name font_path filenames system_fonts :
  (∀ fn, fn ∈ filenames → exists_ w (path_join p font_path fn) = false) →
  scan_filenames w p font_name font_path filenames system_fonts = system_fonts.
Proof.
  intros Hmiss. induction filenames as [|fn rest IH]; simpl; [done|].
  rewrite (Hmiss fn) by by left. apply IH.
  intros fn' Hfn'. apply Hmiss. by right.
Qed.

Lemma scan_paths_first w p font_name system_fonts
    dirs_before font_path dirs_after names_before filename names_after :
  system_fonts !! font_name = None →
  (∀ dir, dir ∈ dirs_before →
     exists_ w dir = false
     ∨ ∀ fn, fn ∈ names_before ++ filename :: names_after →
             exists_ w (path_join p dir fn) = false) →
  exists_ w font_path = true →
  (∀ fn, fn ∈ names_before → exists_ w (path_join p font_path fn) = false) →
  exists_ w (path_join p font_path filename) = true →
  scan_paths w p font_name (names_before ++ filename :: names_after)
             (dirs_before ++ font_path :: dirs_after) system_fonts
  = <[ font_name := path_join p font_path filename ]> system_fonts.
Proof.
  intros Hfresh Hdirs Hdir Hnames Hhit.
  induction dirs_before as [|dir dirs IH]; simpl.
  - rewrite Hdir. simpl. rewrite scan_filenames_first by done.
    by rewrite bool_decide_eq_true_2 by (rewrite lookup_insert_eq; by eexists).
  - assert (IH' := IH (λ d Hd, Hdirs d (list_elem_of_further _ _ _ Hd))).
    destruct (Hdirs dir) as [Hgone|Hempty]; [by left| |].
    + by rewrite Hgone.
    + destruct (exists_ w dir); simpl; [|done].
      rewrite scan_filenames_miss by done.
      by rewrite bool_decide_eq_false_2 by (rewrite Hfresh; by intros [? ?]).
Qed.

Lemma scan_families_lookup w p paths fams : ∀ system_fonts f fns,
  NoDup fams.*1 →
  (∀ g, g ∈ fams.*1 → system_fonts !! g = None) →
  (f, fns) ∈ fams →
  ∃ other, other !! f = None
    ∧ scan_families w p paths fams system_fonts !! f
      = scan_paths w p f fns paths other !! f.
Proof.
  induction fams as [|[f0 fns0] rest IH]; intros sf f fns Hnd Hfresh Hin.
  - by apply elem_of_nil in Hin.
  - simpl in Hnd. apply NoDup_cons in Hnd as [Hnotin Hnd]. simpl.
    assert (Hf0 : sf !! f0 = None) by (apply Hfresh; simpl; by left).
    assert (Hfresh1 : ∀ g, g ∈ rest.*1 →
              scan_paths w p f0 fns0 paths sf !! g = None).
    { intros g Hg. rewrite scan_paths_other; try done.
      - apply Hfresh. simpl. by right.
      - by intros ->. }
    apply elem_of_cons in Hin as [[= -> ->]|Hin].
    + exists sf. split; [done|].
      by destruct (scan_families_spec w p paths rest
                     (scan_paths w p f0 fns0 paths sf) Hnd Hfresh1)
        as [-> _].
    + by apply IH.
Qed.

(** X5. [get_system_fonts] searches the directories in order and,
    inside a directory, the file names in order: a family is bound to
    the first file name found in the first existing directory that holds
    any of its files. *)
Theorem get_system_fonts_first_directory_wins e w system_fonts f
    dirs_before font_path dirs_after names_before filename names_after :
  get_system_fonts e w = inr system_fonts →
  font_paths e = inr (dirs_before ++ font_path :: dirs_after) →
  (f, names_before ++ filename :: names_after) ∈ font_files (sys_platform e) →
  (∀ dir, dir ∈ dirs_before →
     exists_ w dir = false
     ∨ ∀ fn, fn ∈ names_before ++ filename :: names_after →
             exists_ w (path_join (sys_platform e) dir fn) = false) →
  exists_ w font_path = true →
  (∀ fn, fn ∈ names_before →
         exists_ w (path_join (sys_platform e) font_path fn) = false) →
  exists_ w (path_join (sys_platform e) font_path filename) = true →
  system_fonts !! f = Some (path_join (sys_platform e) font_path filename).
Proof.
  unfold get_system_fonts. intros Hget Hpaths Hf Hdirs Hdir Hnames Hhit.
  rewrite Hpaths in Hget. simpl in Hget. injection Hget as <-.
  destruct (scan_families_lookup w (sys_platform e)
              (dirs_before ++ font_path :: dirs_after)
              (font_files (sys_platform e)) ∅ f
              (names_before ++ filename :: names_after))
    as (other & Hother & ->); [| |exact Hf|].
  { rewrite font_files_names. apply font_order_NoDup. }
  { intros ? _. apply lookup_empty. }
  rewrite scan_paths_first by done. apply lookup_insert_eq.
Qed.

Lemma get_system_fonts_first_directory_wins_witness :
  ∃ system_fonts,
    get_system_fonts linux_env two_dirs_world = inr system_fonts
    ∧ system_fonts !! "simsun" = Some "/root/.fonts/simsun.ttc".
Proof.
  destruct (get_system_fonts linux_env two_dirs_world) as [err|sf] eqn:Hget.
  - exfalso. vm_compute in Hget. discriminate Hget.
  - exists sf. split; [reflexivity|].
    apply (get_system_fonts_first_directory_wins linux_env two_dirs_world sf
             "simsun" ["/usr/share/fonts"; "/usr/local/share/fonts"]
             "/root/.fonts" [] [] "simsun.ttc" ["simsun.ttf"]).
    + exact Hget.
    + reflexivity.
    + simpl. left.
    + intros dir Hdir.
      apply elem_of_cons in Hdir as [->|Hdir].
      * right. intros fn Hfn.
        apply elem_of_cons in Hfn as [->|Hfn]; [vm_compute; reflexivity|].
        apply elem_of_cons in Hfn as [->|Hfn]; [vm_compute; reflexivity|].
        inversion Hfn.
      * apply elem_of_cons in Hdir as [->|Hdir]; [|inversion Hdir].
        left. vm_compute. reflexivity.
    + vm_compute. reflexivity.
    + intros fn Hfn. inversion Hfn.
    + vm_compute. reflexivity.
Defined.

(** X6. On Windows, when [WINDIR] or [LOCALAPPDATA] is not set,
    [get_system_fonts] raises [KeyError], and so does [translate_stream]
    -- the fallback font is not tried and nothing is downloaded. *)
Theorem windows_without_font_variables_raises e w :
  sys_platform e = Win32 →
  environ e !! "WINDIR" = None ∨ environ e !! "LOCALAPPDATA" = None →
  ∃ key,
    (key = "WINDIR" ∨ key = "LOCALAPPDATA")
    ∧ get_system_fonts e w = inl (KeyError key)
    ∧ ∀ lib col cfg stream,
        Stream.translate_stream e lib col cfg stream w
        = (inl (KeyError key), w).
Proof.
  intros Hwin Hmissing.
  assert (Hraise : ∃ key, (key = "WINDIR" ∨ key = "LOCALAPPDATA")
                          ∧ font_paths e = inl (KeyError key)).
  { unfold font_paths, getenv, bind. rewrite Hwin.
    destruct (environ e !! "WINDIR") as [windir|] eqn:Hw.
    - destruct Hmissing as [?|Hl]; [done|]. rewrite Hl.
      exists "LOCALAPPDATA". by split; [right|].
    - exists "WINDIR". by split; [left|]. }
  destruct Hraise as (key & Hkey & Hpaths). exists key. split; [done|].
  assert (Hget : get_system_fonts e w = inl (KeyError key)).
  { unfold get_system_fonts. by rewrite Hpaths. }
  split; [done|]. intros lib col cfg stream.
  unfold Stream.translate_stream, resolve_font. by rewrite Hget.
Qed.

Lemma windows_without_font_variables_raises_witness :
  ∃ key,
    (key = "WINDIR" ∨ key = "LOCALAPPDATA")
    ∧ get_system_fonts bare_windows font_world = inl (KeyError key)
    ∧ ∀ lib col cfg stream,
        Stream.translate_stream bare_windows lib col cfg stream font_world
        = (inl (KeyError key), font_world).
Proof.
  apply (windows_without_font_variables_raises bare_windows font_world).
  - reflexivity.
  - right. vm_compute. reflexivity.
Defined.

Lemma string_length_app (s1 s2 : string) :
  String.length (s1 +:+ s2) = (String.length s1 + String.length s2)%nat.
Proof. induction s1 as [|c s1 IH]; simpl; [done|]. by rewrite IH. Qed.

Lemma last_char_None s : last_char s = None → s = "".
Proof.
  destruct s as [|c s]; [done|]. unfold last_char. simpl.
  intros Hl. exfalso. revert Hl. generalize c.
  induction (list_ascii_of_string s) as [|c' l IH]; intros c0; simpl;
    [done|apply IH].
Qed.

(** Joining a non-empty name gives a longer, hence different, path. *)
Lemma path_join_longer p dir name :
  name ≠ "" → (String.length dir < String.length (path_join p dir name))%nat.
Proof.
  intros Hne. assert (0 < String.length name)%nat.
  { destruct name; [done|simpl; lia]. }
  unfold path_join. destruct (last_char dir) as [c|] eqn:Hl.
  - destruct (is_sep p c); rewrite !string_length_app; [lia|].
    destruct p; simpl; lia.
  - apply last_char_None in Hl as ->. simpl. lia.
Qed.

Lemma fallback_path_not_temp_dir e : fallback_path e ≠ temp_dir e.
Proof.
  intros Heq.
  pose proof (path_join_longer (sys_platform e) (temp_dir e)
                "SourceHanSerifSC-Regular.otf") as Hlen.
  unfold fallback_path in Heq. rewrite Heq in Hlen.
  assert (String.length (temp_dir e) < String.length (temp_dir e))%nat;
    [by apply Hlen|lia].
Qed.

Lemma exists_add_file_ne w path other :
  path ≠ other → exists_ (add_file other w) path = exists_ w path.
Proof.
  intros Hne. unfold exists_, add_file. simpl.
  apply bool_decide_ext. rewrite elem_of_union, elem_of_singleton.
  split; [intros [?|?]; [congruence|done]|by right].
Qed.

Lemma exists_log_fetch w url target path :
  exists_ (log_fetch url target w) path = exists_ w path.
Proof. done. Qed.

Lemma exists_add_file_eq w path : exists_ (add_file path w) path = true.
Proof. unfold exists_, add_file. simpl. apply bool_decide_eq_true. set_solver. Qed.

(** X7. A download that fails makes [get_fallback_font] return [None].
    If it broke off after the target file was created, the next call
    takes that file for the cached font and returns its path without
    downloading; if it left nothing, the next call downloads again. *)
Theorem failed_download_and_next_call e w partial :
  mkdir_ok w = true →
  exists_ w (fallback_path e) = false →
  network w (length (fetches w)) = FetchFailed partial →
  ∃ w1,
    get_fallback_font e w = (inr None, w1)
    ∧ fetches w1 = fetches w ++ [(fallback_url, fallback_path e)]
    ∧ exists_ w1 (fallback_path e) = partial
    ∧ if partial
      then ∃ w2, get_fallback_font e w1 = (inr (Some (fallback_path e)), w2)
                 ∧ fetches w2 = fetches w1
      else length (fetches (get_fallback_font e w1).2)
           = S (length (fetches w1)).
Proof.
  intros Hmk Hex Hnet.
  assert (Hex' : exists_ (add_file (temp_dir e) w) (fallback_path e) = false).
  { rewrite exists_add_file_ne; [done|apply fallback_path_not_temp_dir]. }
  unfold get_fallback_font at 1. rewrite Hmk. simpl. rewrite Hex'. simpl.
  rewrite Hnet. eexists. split; [reflexivity|]. split; [by destruct partial|].
  destruct partial.
  - split; [apply exists_add_file_eq|].
    eexists. split.
    { rewrite get_fallback_font_cached; [reflexivity|done|].
      apply exists_add_file_eq. }
    reflexivity.
  - split; [done|].
    unfold get_fallback_font. simpl. rewrite Hmk. simpl.
    rewrite exists_add_file_ne by apply fallback_path_not_temp_dir.
    rewrite exists_log_fetch, Hex'. simpl. clear Hnet.
    destruct (network w _) as [|partial]; simpl.
    + rewrite !length_app. simpl. lia.
    + destruct partial; simpl; rewrite !length_app; simpl; lia.
Qed.

Lemma failed_download_and_next_call_witness :
  ∃ w1,
    get_fallback_font linux_env broken_network = (inr None, w1)
    ∧ ∃ w2, get_fallback_font linux_env w1
            = (inr (Some "/tmp/pdf2zh_fonts/SourceHanSerifSC-Regular.otf"), w2)
            ∧ fetches w2 = fetches w1.
Proof.
  destruct (failed_download_and_next_call linux_env broken_network true)
    as (w1 & Hfirst & _ & _ & Hnext).
  - reflexivity.
  - vm_compute. reflexivity.
  - reflexivity.
  - exists w1. split; [exact Hfirst|exact Hnext].
Defined.

(** The effects of [get_fallback_font] on the world. *)
Lemma get_fallback_font_effects e w :
  let w1 := (get_fallback_font e w).2 in
  files w ⊆ files w1
  ∧ (length (fetches w1) ≤ S (length (fetches w)))%nat
  ∧ callback_log w1 = callback_log w.
Proof.
  unfold get_fallback_font.
  destruct (mkdir_ok w); simpl; [|by split; [|split; [lia|]]].
  destruct (exists_ (add_file (temp_dir e) w) (fallback_path e)); simpl.
  - split; [set_solver|]. split; [lia|done].
  - destruct (network w _) as [|partial]; simpl.
    + split; [set_solver|]. rewrite length_app. simpl. split; [lia|done].
    + destruct partial; simpl; (split; [set_solver|]);
        rewrite length_app; simpl; (split; [lia|done]).
Qed.

Lemma page_step_world cfg col pageno st :
  let w' := Sweep.world (Sweep.page_step cfg col pageno st).2 in
  files w' = files (Sweep.world st) ∧ fetches w' = fetches (Sweep.world st).
Proof.
  unfold Sweep.page_step.
  destruct (Sweep.cancelled cfg pageno); [done|].
  destruct (Sweep.filtered_out cfg pageno); [done|].
  assert (Hadv : files (Sweep.world (Sweep.advance cfg st))
                 = files (Sweep.world st)
                 ∧ fetches (Sweep.world (Sweep.advance cfg st))
                   = fetches (Sweep.world st)).
  { unfold Sweep.advance. simpl. by destruct (Sweep.callback cfg). }
  simpl.
  destruct (Sweep.detect col pageno _) as [err|[[h wd] page_layout]]; [done|].
  destruct (Mask.layout_mask h wd page_layout) as [box|]; [|done].
  by destruct (Sweep.rewrite col pageno _ _ _) as [err|[d' patch']].
Qed.

Lemma sweep_world cfg col pagenos : ∀ st,
  let w' := Sweep.world (Sweep.sweep cfg col pagenos st).2 in
  files w' = files (Sweep.world st) ∧ fetches w' = fetches (Sweep.world st).
Proof.
  induction pagenos as [|p ps IH]; intros st; simpl; [done|].
  pose proof (page_step_world cfg col p st) as Hp. simpl in Hp.
  destruct (Sweep.page_step cfg col p st) as [[err|[]] st1]; simpl in *;
    [done|].
  destruct (IH st1) as [Hf Hn]. simpl in *. by rewrite Hf, Hn.
Qed.

Lemma translate_patch_world cfg col page_count d w :
  let w' := Sweep.world (Sweep.translate_patch cfg col page_count d w).2 in
  files w' = files w ∧ fetches w' = fetches w.
Proof.
  unfold Sweep.translate_patch.
  pose proof (sweep_world cfg col (seq 0 page_count)
                (Sweep.mkState (Sweep.total_pages cfg page_count) 0 ∅ ∅ d w))
    as Hs. simpl in Hs.
  by destruct (Sweep.sweep cfg col _ _) as [[err|[]] st].
Qed.

(** What [translate_stream] does to the world after the font lookup:
    nothing but calls of the callback. *)
Lemma translate_stream_world e lib col cfg stream w :
  let w1 := (resolve_font e w).2 in
  let w' := (Stream.translate_stream e lib col cfg stream w).2 in
  files w' = files w1 ∧ fetches w' = fetches w1.
Proof.
  unfold Stream.translate_stream.
  destruct (resolve_font e w) as [[err|font_path] w1]; [done|]. simpl.
  destruct (Stream.open_document lib stream) as [err|doc_en]; [done|].
  destruct (Stream.register_fonts _ _ _ _ _) as [err|[font_id d1]]; [done|].
  destruct (Patcher.patch_resources _ _ _) as [[err|[]] scan]; [done|].
  pose proof (translate_patch_world cfg col (length (Stream.doc_pages doc_en))
                (Patcher.doc scan) w1) as Hw. simpl in Hw.
  destruct (Sweep.translate_patch _ _ _ _ _) as [[err|obj_patch] st];
    [done|]. simpl in Hw.
  destruct (Stream.apply_patches _ _ _) as [err|d3]; [done|].
  by destruct (Dual.build_dual _ _ _) as [err|dual_pages].
Qed.

(** X8. [translate_stream] never removes a file and starts at most one
    download; when [get_system_fonts] finds one of the four families it
    starts none and leaves the set of files as it was. *)
Theorem translate_stream_downloads_at_most_once e lib col cfg stream w :
  let w' := (Stream.translate_stream e lib col cfg stream w).2 in
  files w ⊆ files w'
  ∧ (length (fetches w') ≤ S (length (fetches w)))%nat
  ∧ ∀ system_fonts font_path,
      get_system_fonts e w = inr system_fonts →
      pick_font font_order system_fonts = Some font_path →
      files w' = files w ∧ fetches w' = fetches w.
Proof.
  destruct (translate_stream_world e lib col cfg stream w) as [Hf Hn].
  cbv zeta. rewrite Hf, Hn. unfold resolve_font.
  destruct (get_system_fonts e w) as [err|system_fonts]; cbn [snd].
  { split; [done|]. split; [lia|]. intros ?? [=]. }
  destruct (pick_font font_order system_fonts) as [font_path|] eqn:Hpick;
    cbn [snd].
  { split; [done|]. split; [lia|done]. }
  destruct (get_fallback_font_effects e w) as (Hsub & Hlen & _).
  destruct (get_fallback_font e w) as [[err|[font_path|]] w1]; cbn [snd] in *;
    (split; [done|]; split; [done|]; intros ?? [= <-] Hp; congruence).
Qed.

End FontLookupFacts.

(** ** The font-resource scan, further *)

Section ScanEffectFacts.
Import Py Patcher KeyPaths.

Variable font_id : gmap string Z.

Lemma bindable_bound_resources name value o :
  bindable name "" (bound name "Resources/" value o) = bindable name "" o.
Proof.
  unfold bindable, bound. simpl.
  by rewrite !lookup_insert_ne by discriminate.
Qed.

(** One [try] block changes nothing but the entry of its own key. *)
Lemma inspect_obj_frame name label o :
  unreadable (inspect_obj font_id name label o) = unreadable o
  ∧ unwritable (inspect_obj font_id name label o) = unwritable o
  ∧ ∀ key, key ≠ label +:+ "Font/" +:+ name →
           entries (inspect_obj font_id name label o) !! key
           = entries o !! key.
Proof.
  rewrite inspect_obj_bindable.
  destruct (font_id !! name) as [id|]; [|done].
  destruct (bindable name label o); [|done].
  unfold bound. simpl. split; [done|]. split; [done|].
  intros key Hne. by rewrite lookup_insert_ne.
Qed.

Lemma patch_obj_frame name o :
  unreadable (patch_obj font_id name o) = unreadable o
  ∧ unwritable (patch_obj font_id name o) = unwritable o
  ∧ ∀ key, key ≠ "Font/" +:+ name → key ≠ "Resources/Font/" +:+ name →
           entries (patch_obj font_id name o) !! key = entries o !! key.
Proof.
  unfold patch_obj.
  destruct (inspect_obj_frame name "Resources/" o) as (Hr1 & Hw1 & He1).
  destruct (inspect_obj_frame name ""
              (inspect_obj font_id name "Resources/" o)) as (Hr2 & Hw2 & He2).
  split; [by rewrite Hr2|]. split; [by rewrite Hw2|].
  intros key Hk1 Hk2. rewrite He2 by done. by apply He1.
Qed.

Lemma mentions_CustomFont key :
  mentions "CustomFont" key = false →
  key ≠ "Font/CustomFont" ∧ key ≠ "Resources/Font/CustomFont".
Proof.
  intros Hno. split; intros ->; vm_compute in Hno; discriminate Hno.
Qed.

(** A lookup after the scan, for a key that does not mention the font
    name, gives what it gave before. *)
Lemma patch_obj_get_key name o key :
  key ≠ "Font/" +:+ name → key ≠ "Resources/Font/" +:+ name →
  obj_get_key (patch_obj font_id name o) key = obj_get_key o key.
Proof.
  intros Hk1 Hk2. destruct (patch_obj_frame name o) as (Hr & _ & He).
  unfold obj_get_key. by rewrite Hr, He.
Qed.

(** X9. The scan of [translate_stream] leaves the number of objects and
    every object outside [range(1, xreflen)] as they were, and adds or
    removes no object.  Under a key path that neither is nor runs
    through an entry [CustomFont], a lookup reports the type it reported
    before, and the value it reported before unless that type is
    ["dict"]: the printed value of a dictionary that encloses a new
    binding is not claimed to stay. *)
Theorem resource_scan_touches_only_font_keys font_path d :
  let d' := doc (patch_resources font_id (font_list font_path) d).2 in
  xref_length d' = xref_length d
  ∧ (∀ xref, is_Some (objs d' !! xref) ↔ is_Some (objs d !! xref))
  ∧ (∀ xref, valid_xref d xref = false → objs d' !! xref = objs d !! xref)
  ∧ (∀ xref key t v,
       mentions "CustomFont" key = false →
       xref_get_key d xref key = inr (t, v) →
       ∃ v', xref_get_key d' xref key = inr (t, v')
             ∧ (t ≠ "dict" → v' = v)).
Proof.
  destruct (patch_resources_objs font_id font_path d)
    as (s & Hrun & Hlen & Hobjs).
  rewrite Hrun. cbn [snd]. split; [done|]. split; [|split].
  - intros xref. rewrite Hobjs.
    destruct (valid_xref d xref); [|done]. by rewrite fmap_is_Some.
  - intros xref Hv. by rewrite Hobjs, Hv.
  - intros xref key t v Hno Hget. exists v. split; [|done].
    destruct (mentions_CustomFont key Hno) as [Hk1 Hk2].
    unfold xref_get_key in *.
    replace (valid_xref (doc s) xref) with (valid_xref d xref)
      by (unfold valid_xref; by rewrite Hlen).
    destruct (valid_xref d xref) eqn:Hv; simpl in *; [|done].
    rewrite Hobjs, Hv.
    destruct (objs d !! xref) as [o|]; simpl; [|done].
    by rewrite patch_obj_get_key.
Qed.

(** How key paths are cut: the two paths the scan writes, and a path
    through a new binding, mention [CustomFont]; the font dictionary
    and a binding under another name do not. *)
Example key_paths_that_mention_the_font :
  components "Resources/Font/CustomFont" = ["Resources"; "Font"; "CustomFont"]
  ∧ mentions "CustomFont" "Resources/Font/CustomFont" = true
  ∧ mentions "CustomFont" "Font/CustomFont/BaseFont" = true
  ∧ mentions "CustomFont" "Resources/Font" = false
  ∧ mentions "CustomFont" "Font/F1" = false.
Proof. vm_compute. repeat split; reflexivity. Qed.

(** X10. After the scan, every object of the range whose font
    dictionary (its own or that of [Resources]) can be read and is a
    dictionary, where the name [CustomFont] reads as [null] and can be
    written, binds [CustomFont] to the reference ["<id> 0 R"] of the
    registered font. *)
Theorem resource_scan_binds_unbound_fonts font_path d id xref o label :
  font_id !! "CustomFont" = Some id →
  valid_xref d xref = true →
  objs d !! xref = Some o →
  label ∈ labels →
  bindable "CustomFont" label o = true →
  ∃ o', objs (doc (patch_resources font_id (font_list font_path) d).2) !! xref
        = Some o'
        ∧ entries o' !! (label +:+ "Font/CustomFont")
          = Some ("xref", pretty id +:+ " 0 R").
Proof.
  intros Hid Hv Ho Hlabel Hb.
  destruct (patch_resources_objs font_id font_path d)
    as (s & Hrun & Hlen & Hobjs).
  rewrite Hrun. cbn [snd]. rewrite Hobjs, Hv, Ho. simpl.
  eexists. split; [done|]. unfold patch_obj.
  unfold labels in Hlabel.
  apply elem_of_cons in Hlabel as [->|Hlabel].
  - apply inspect_obj_keeps; [|simpl; discriminate].
    rewrite inspect_obj_bindable, Hid, Hb. unfold bound. simpl.
    apply lookup_insert_eq.
  - apply elem_of_cons in Hlabel as [->|Hlabel]; [|inversion Hlabel].
    rewrite (inspect_obj_bindable font_id "CustomFont" "Resources/" o), Hid.
    rewrite inspect_obj_bindable, Hid.
    destruct (bindable "CustomFont" "Resources/" o).
    + rewrite bindable_bound_resources, Hb. unfold bound. simpl.
      apply lookup_insert_eq.
    + rewrite Hb. unfold bound. simpl. apply lookup_insert_eq.
Qed.

(** X11. When no font was registered under the name -- [font_id] is
    empty, as for a document without pages -- the scan changes nothing:
    the [KeyError] of [font_id[font[0]]] is swallowed for every object. *)
Theorem resource_scan_without_registered_font font_path d :
  font_id !! "CustomFont" = None →
  ∃ s, patch_resources font_id (font_list font_path) d = (inr tt, s)
       ∧ doc s = d.
Proof.
  intros Hid.
  destruct (patch_resources_objs font_id font_path d)
    as (s & Hrun & Hlen & Hobjs).
  exists s. split; [done|].
  destruct (doc s) as [m n], d as [m0 n0]. simpl in *. f_equal; [|done].
  apply map_eq. intros x. rewrite Hobjs.
  destruct (valid_xref _ x); [|done].
  destruct (m0 !! x) as [o|]; simpl; [|done]. f_equal.
  unfold patch_obj. by rewrite !inspect_obj_bindable, Hid.
Qed.

End ScanEffectFacts.

Section ScanEffectExamples.
Import Py Patcher.

Lemma resource_scan_binds_unbound_fonts_witness :
  ∃ o', objs (doc (patch_resources {[ "CustomFont" := 9 ]}
                     (font_list "/usr/share/fonts/simsun.ttc")
                     sample_store).2) !! 2 = Some o'
        ∧ entries o' !! "Resources/Font/CustomFont" = Some ("xref", "9 0 R").
Proof.
  apply (resource_scan_binds_unbound_fonts {[ "CustomFont" := 9 ]}
           "/usr/share/fonts/simsun.ttc" sample_store 9 2
           (mkObj {[ "Resources/Font" := ("dict", "<<>>") ]} ∅ ∅)
           "Resources/").
  - reflexivity.
  - reflexivity.
  - vm_compute. reflexivity.
  - unfold labels. left.
  - vm_compute. reflexivity.
Defined.

Lemma resource_scan_without_registered_font_witness :
  ∃ s, patch_resources ∅ (font_list "/usr/share/fonts/simsun.ttc")
                       sample_store = (inr tt, s)
       ∧ doc s = sample_store.
Proof.
  apply (resource_scan_without_registered_font ∅
           "/usr/share/fonts/simsun.ttc" sample_store).
  reflexivity.
Defined.

End ScanEffectExamples.

(** ** The page sweep, further *)

Section SweepMoreFacts.
Import Py Patcher Sweep SweepSamples.

(** X12. An empty page list is no filter: [translate_patch] with
    [pages = []] does exactly what it does with [pages = None], on every
    page of the document. *)
Theorem empty_page_list_is_no_filter cb ev col page_count d w :
  translate_patch (mkConfig (Some []) cb ev) col page_count d w
  = translate_patch (mkConfig None cb ev) col page_count d w.
Proof.
  unfold translate_patch.
  assert (Hsweep : ∀ pagenos st,
            sweep (mkConfig (Some []) cb ev) col pagenos st
            = sweep (mkConfig None cb ev) col pagenos st).
  { induction pagenos as [|p ps IH]; intros st; simpl; [done|].
    assert (Hstep : page_step (mkConfig (Some []) cb ev) col p st
                    = page_step (mkConfig None cb ev) col p st) by done.
    rewrite Hstep.
    destruct (page_step (mkConfig None cb ev) col p st) as [[e|[]] st1];
      [done|apply IH]. }
  by rewrite Hsweep.
Qed.

(** A turn that returns is either a skipped page, with the state
    untouched, or a page whose mask was built and stored under its
    number. *)
Lemma page_step_layout cfg col pageno st st' :
  page_step cfg col pageno st = (inr tt, st') →
  if filtered_out cfg pageno
  then st' = st
  else ∃ pix_height pix_width page_layout box,
         detect col pageno (doc_zh (advance cfg st))
         = inr (pix_height, pix_width, page_layout)
         ∧ Mask.layout_mask pix_height pix_width page_layout = Some box
         ∧ layout st' = <[ pageno := box ]> (layout st).
Proof.
  unfold page_step.
  destruct (cancelled cfg pageno); [done|].
  destruct (filtered_out cfg pageno); [by intros [= <-]|].
  simpl.
  destruct (detect col pageno _) as [e|[[h wd] page_layout]]; [done|].
  destruct (Mask.layout_mask h wd page_layout) as [box|] eqn:Hbox; [|done].
  destruct (rewrite col pageno _ _ _) as [e|[d' patch']]; [done|].
  intros [= <-]. by exists h, wd, page_layout, box.
Qed.

Lemma sweep_layout_keys cfg col pagenos : ∀ st st',
  sweep cfg col pagenos st = (inr tt, st') →
  ∀ pageno,
    is_Some (layout st' !! pageno)
    ↔ is_Some (layout st !! pageno)
      ∨ (pageno ∈ pagenos ∧ filtered_out cfg pageno = false).
Proof.
  induction pagenos as [|p ps IH]; intros st st'; simpl.
  - intros [= <-] pageno. split; [by left|].
    intros [?|[Hin _]]; [done|inversion Hin].
  - destruct (page_step cfg col p st) as [[e|[]] st1] eqn:Hstep; [done|].
    intros Hrest pageno. rewrite (IH _ _ Hrest pageno).
    pose proof (page_step_layout _ _ _ _ _ Hstep) as Hp.
    destruct (filtered_out cfg p) eqn:Hf.
    + subst st1. split.
      * intros [?|[Hin Hsel]]; [by left|right]. split; [by right|done].
      * intros [?|[[->|Hin]%elem_of_cons Hsel]]; [by left|congruence|].
        right. by split.
    + destruct Hp as (h & wd & pl & box & _ & _ & Hl). rewrite Hl.
      rewrite lookup_insert. split.
      * intros [Hs|[Hin Hsel]].
        -- case_decide; [subst; right; split; [by left|done]|by left].
        -- right. split; [by right|done].
      * intros [Hs|[[->|Hin]%elem_of_cons Hsel]].
        -- left. case_decide; [by eexists|done].
        -- left. rewrite decide_True by done. by eexists.
        -- right. by split.
Qed.

(** X13. When [translate_patch] returns, the [layout] dictionary holds
    a mask for exactly the pages of the document that the filter lets
    through. *)
Theorem layout_has_the_selected_pages cfg col page_count d w patch st :
  translate_patch cfg col page_count d w = (inr patch, st) →
  ∀ pageno,
    is_Some (layout st !! pageno)
    ↔ (pageno < page_count)%nat ∧ filtered_out cfg pageno = false.
Proof.
  unfold translate_patch.
  destruct (sweep cfg col (seq 0 page_count) _) as [[e|[]] st1] eqn:Hs;
    [done|].
  intros [= _ <-] pageno.
  rewrite (sweep_layout_keys _ _ _ _ _ Hs pageno). simpl.
  rewrite lookup_empty, elem_of_seq. split.
  - intros [[? [=]]|[Hin Hsel]]. split; [lia|done].
  - intros [Hlt Hsel]. right. split; [lia|done].
Qed.

Lemma layout_has_the_selected_pages_witness :
  let cfg := mkConfig (Some [0; 2]) true None in
  let st := (translate_patch cfg idle 3 empty_store empty_world).2 in
  is_Some (layout st !! 2%nat)
  ↔ (2 < 3)%nat ∧ filtered_out cfg 2 = false.
Proof.
  intros cfg st.
  apply (layout_has_the_selected_pages cfg idle 3 empty_store empty_world
           ∅ st).
  vm_compute. reflexivity.
Defined.

(** The collaborators are asked about selected pages only. *)
Lemma page_step_agree cfg col col' pageno st :
  (filtered_out cfg pageno = false →
   (∀ d, detect col pageno d = detect col' pageno d)
   ∧ (∀ l d p, rewrite col pageno l d p = rewrite col' pageno l d p)) →
  page_step cfg col pageno st = page_step cfg col' pageno st.
Proof.
  intros Hagree. unfold page_step.
  destruct (cancelled cfg pageno); [done|].
  destruct (filtered_out cfg pageno); [done|].
  destruct Hagree as [Hd Hr]; [done|]. simpl. rewrite Hd.
  destruct (detect col' pageno _) as [e|[[h wd] page_layout]]; [done|].
  destruct (Mask.layout_mask h wd page_layout) as [box|]; [|done].
  by rewrite Hr.
Qed.

(** X14. A page the filter excludes is never rendered, detected or
    rewritten: two sets of collaborators that agree on the pages the
    filter lets through give the same result and the same final state. *)
Theorem filtered_pages_never_reach_collaborators
    cfg col col' page_count d w :
  (∀ pageno, filtered_out cfg pageno = false →
     (∀ d, detect col pageno d = detect col' pageno d)
     ∧ (∀ l d p, rewrite col pageno l d p = rewrite col' pageno l d p)) →
  translate_patch cfg col page_count d w
  = translate_patch cfg col' page_count d w.
Proof.
  intros Hagree. unfold translate_patch.
  assert (Hsweep : ∀ pagenos st,
            sweep cfg col pagenos st = sweep cfg col' pagenos st).
  { induction pagenos as [|p ps IH]; intros st; simpl; [done|].
    rewrite (page_step_agree cfg col col' p st (Hagree p)).
    destruct (page_step cfg col' p st) as [[e|[]] st1]; [done|apply IH]. }
  by rewrite Hsweep.
Qed.

Lemma filtered_pages_never_reach_collaborators_witness :
  translate_patch (mkConfig (Some [0; 2]) true None) fails_on_page_1 3
                  empty_store empty_world
  = translate_patch (mkConfig (Some [0; 2]) true None) idle 3
                    empty_store empty_world.
Proof.
  apply (filtered_pages_never_reach_collaborators
           (mkConfig (Some [0; 2]) true None) fails_on_page_1 idle 3
           empty_store empty_world).
  intros pageno Hsel. split; [|done]. intros d.
  destruct pageno as [|[|pageno]]; [reflexivity| |reflexivity].
  vm_compute in Hsel. discriminate Hsel.
Defined.

(** X15. A selected page whose detection fails is not skipped: on a
    document that has such a page [translate_patch] raises, whatever
    the other pages do, and returns no object patch map; when the sweep
    gets as far as that page uncancelled, it raises the detector's
    exception, after the progress bar was advanced for the page. *)
Theorem detector_failure_aborts_the_sweep cfg col k e page_count d w :
  (k < page_count)%nat →
  filtered_out cfg k = false →
  (∀ store, detect col k store = inl e) →
  (∃ err st, translate_patch cfg col page_count d w = (inl err, st))
  ∧ (∀ stk,
       sweep cfg col (seq 0 k)
             (mkState (total_pages cfg page_count) 0 ∅ ∅ d w)
       = (inr tt, stk) →
       cancelled cfg k = false →
       translate_patch cfg col page_count d w = (inl e, advance cfg stk)).
Proof.
  intros Hk Hsel Hfail. unfold translate_patch.
  set (st0 := mkState (total_pages cfg page_count) 0 ∅ ∅ d w).
  replace (seq 0 page_count)
    with (seq 0 k ++ k :: seq (S k) (page_count - S k)).
  2:{ change (k :: seq (S k) (page_count - S k))
        with (seq k (S (page_count - S k))).
      rewrite <- seq_app. f_equal. lia. }
  rewrite sweep_app.
  assert (Hstep : ∀ st,
            page_step cfg col k st
            = if cancelled cfg k
              then (inl (CancelledError "task cancelled"), st)
              else (inl e, advance cfg st)).
  { intros st. unfold page_step. rewrite Hsel.
    destruct (cancelled cfg k); [done|]. simpl. by rewrite Hfail. }
  destruct (sweep cfg col (seq 0 k) st0) as [[err|[]] stk].
  - split; [by eexists _, _|]. by intros ? [=].
  - cbn [sweep]. rewrite Hstep. split.
    + destruct (cancelled cfg k); by eexists _, _.
    + intros ? [= <-] Hc. by rewrite Hc.
Qed.

Lemma detector_failure_aborts_the_sweep_witness :
  ∃ st, translate_patch (mkConfig None true None) fails_on_page_1 3
                        empty_store empty_world
        = (inl (OtherError "detector"), st)
        ∧ bar_n st = 2%nat.
Proof.
  destruct (detector_failure_aborts_the_sweep (mkConfig None true None)
              fails_on_page_1 1 (OtherError "detector") 3
              empty_store empty_world) as [_ Hat].
  - lia.
  - reflexivity.
  - reflexivity.
  - eexists. split.
    + apply Hat; [vm_compute; reflexivity|reflexivity].
    + vm_compute. reflexivity.
Defined.

End SweepMoreFacts.

(** ** [translate] and [convert_to_pdfa] *)

Section TranslateFacts.
Import Py Fonts Files Pdfa Translate.

Example sample_names_of_outputs :
  posix_basename "/tmp/paper.v2.pdf" = "paper.v2.pdf"
  ∧ posix_splitext "paper.v2.pdf" = ("paper.v2", ".pdf")
  ∧ posix_splitext ".bashrc" = (".bashrc", "").
Proof. vm_compute. done. Qed.

Example translate_sample :
  (translate sample_os sample_job ["/tmp/paper.pdf"] sample_disk).1
  = inr [("out/paper-mono.pdf", "out/paper-dual.pdf")].
Proof. vm_compute. reflexivity. Qed.

Lemma check_files_filter w files :
  check_files w files
  = List.filter (λ f, negb (startswith f "http://")
                      && negb (startswith f "https://")
                      && negb (exists_ w f)) files.
Proof.
  unfold check_files. rewrite !filter_filter.
  apply filter_ext. intros f. by rewrite andb_assoc.
Qed.

(** X16. [check_files] works entry by entry: the result for a
    concatenation is the concatenation of the results, checking a
    second time changes nothing, and every reported entry is an entry
    of the input. *)
Theorem check_files_entry_by_entry w files1 files2 :
  check_files w (files1 ++ files2) = check_files w files1 ++ check_files w files2
  ∧ check_files w (check_files w files1) = check_files w files1
  ∧ (length (check_files w files1) ≤ length files1)%nat.
Proof.
  rewrite !check_files_filter. split; [apply List.filter_app|]. split.
  - rewrite filter_filter. apply filter_ext. intros f.
    apply andb_diag.
  - apply List.filter_length_le.
Qed.

(** X17. [translate] checks its input before any work: with no files,
    or with an entry that is not a URL and does not exist, it raises
    [PDFValueError] and has read, deleted and written nothing -- also
    for the entries that do exist. *)
Theorem translate_checks_before_any_work os job d :
  translate os job [] d = (inl (PDFValueError "No files to process."), d)
  ∧ ∀ files f,
      f ∈ files →
      startswith f "http://" = false → startswith f "https://" = false →
      exists_ (world d) f = false →
      translate os job files d
      = (inl (PDFValueError "Some files do not exist."), d).
Proof.
  split; [done|]. intros files f Hin Hh Hs He.
  assert (Hmissing : f ∈ check_files (world d) files).
  { rewrite check_files_filter. apply list_elem_of_In, filter_In.
    split; [by apply list_elem_of_In|]. by rewrite Hh, Hs, He. }
  unfold translate.
  destruct files as [|f0 files]; [inversion Hin|].
  destruct (check_files (world d) (f0 :: files)); [inversion Hmissing|done].
Qed.

Lemma translate_checks_before_any_work_witness :
  translate sample_os sample_job ["/tmp/paper.pdf"; "thesis.pdf"] sample_disk
  = (inl (PDFValueError "Some files do not exist."), sample_disk).
Proof.
  apply (proj2 (translate_checks_before_any_work sample_os sample_job
                  sample_disk)
           ["/tmp/paper.pdf"; "thesis.pdf"] "thesis.pdf").
  - right. left.
  - reflexivity.
  - reflexivity.
  - vm_compute. reflexivity.
Defined.



(** X19. In PDF/A mode the temporary file of the conversion is removed
    when the converted bytes were read, and is left behind whenever the
    conversion (or the reading) fails. *)
Theorem pdfa_temporary_file_left_on_failure os file d :
  let tmp_pdfa := tmp_name os d "-pdfa.pdf" in
  let run := raw_bytes os true file d in
  exists_ (world run.2) tmp_pdfa
  = match run.1 with
    | inl _ => true
    | inr _ => false
    end.
Proof.
  unfold raw_bytes, named_temporary_file. cbn [fst snd].
  set (tmp := tmp_name os d "-pdfa.pdf").
  set (d1 := mkDisk (add_file tmp (world d)) (<[ tmp := "" ]> (contents d))).
  assert (H1 : exists_ (world d1) tmp = true) by apply exists_add_file_eq.
  unfold convert_to_pdfa.
  destruct (read_file d1 file) as [err|bytes]; [done|].
  destruct (parse (pikepdf os) bytes) as [err|pdf]; [done|].
  unfold open_wb. destruct (can_write os tmp); [|done].
  set (d2 := write_bytes tmp _ _).
  assert (H2 : exists_ (world d2) tmp = true) by apply exists_add_file_eq.
  destruct (read_file d2 tmp) as [err|s_raw]; [done|].
  unfold unlink. rewrite H2. cbn [fst snd world].
  unfold exists_, remove_file. cbn [files].
  apply bool_decide_eq_false.
  rewrite elem_of_difference, elem_of_singleton. by intros [_ ?].
Qed.

Lemma translate_files_names os job files : ∀ result_files names d d',
  translate_files os job files result_files d = (inr names, d') →
  names
  = result_files
    ++ ((λ file,
           (path_div os (output job)
              ((splitext os (basename os file)).1 +:+ "-mono.pdf"),
            path_div os (output job)
              ((splitext os (basename os file)).1 +:+ "-dual.pdf")))
        <$> files).
Proof.
  induction files as [|file rest IH]; intros acc names d d'; simpl.
  - intros [= <- <-]. by rewrite app_nil_r.
  - destruct (translate_file os job file d) as [[err|pair] d1] eqn:Hfile;
      [done|].
    intros Hrest. rewrite (IH _ _ _ _ Hrest), <- app_assoc. f_equal.
    simpl. f_equal.
    unfold translate_file in Hfile. cbn [py_is andb] in Hfile.
    destruct (raw_bytes os (compatible job) file d) as [[err|s_raw] d2];
      [done|].
    destruct (if startswith file (gettempdir (env job)) then _ else _)
      as [err|d3]; [done|].
    destruct (Stream.translate_stream _ _ _ _ _ _) as [[err|[mono dual]] w];
      [done|].
    destruct (write_outputs _ _ _ _ _ _) as [[err|[]] d4]; [done|].
    by injection Hfile as <- <-.
Qed.

(** X20. When [translate] returns, the list has one pair of paths per
    input file, in order, and each pair is named after the stem of the
    input's base name alone -- so two inputs with the same stem, in
    whatever directories, are written to the same two files. *)
Theorem output_names_follow_the_stem os job files d names d' :
  translate os job files d = (inr names, d') →
  names
  = (λ file,
       (path_div os (output job)
          ((splitext os (basename os file)).1 +:+ "-mono.pdf"),
        path_div os (output job)
          ((splitext os (basename os file)).1 +:+ "-dual.pdf")))
    <$> files.
Proof.
  unfold translate. destruct files as [|f files]; [done|].
  destruct (check_files (world d) (f :: files)); [|done].
  apply translate_files_names.
Qed.

Lemma output_names_follow_the_stem_witness :
  (translate sample_os sample_job ["/tmp/paper.pdf"] sample_disk).1
  = inr [("out/paper-mono.pdf", "out/paper-dual.pdf")].
Proof.
  destruct (translate sample_os sample_job ["/tmp/paper.pdf"] sample_disk)
    as [[err|names] d'] eqn:Hrun.
  - exfalso. vm_compute in Hrun. discriminate Hrun.
  - rewrite (output_names_follow_the_stem _ _ _ _ _ _ Hrun). reflexivity.
Defined.

Lemma mark_pdfa_once pk pdf :
  xmp (mark_pdfa pk pdf) !! "pdfaid:part" = Some "2"
  ∧ xmp (mark_pdfa pk pdf) !! "pdfaid:conformance" = Some "B"
  ∧ xmp (mark_pdfa pk pdf) !! "pdf:Producer" = Some (producer pk)
  ∧ docinfo (mark_pdfa pk pdf)
    = update_docinfo pk (xmp (mark_pdfa pk pdf)) (docinfo pdf)
  ∧ output_intents (mark_pdfa pk pdf)
    = Some (default [] (output_intents pdf) ++ [output_intent]).
Proof.
  unfold mark_pdfa, close_metadata. cbn [xmp docinfo output_intents].
  split; [by rewrite !lookup_insert_ne by done; rewrite lookup_insert_eq|].
  split; [by rewrite !lookup_insert_ne by done; rewrite lookup_insert_eq|].
  split; [by rewrite lookup_insert_eq|].
  split; [done|].
  by destruct (output_intents pdf).
Qed.

(** X21. [convert_to_pdfa] keeps every output intent the document has
    and appends one sRGB intent each time it is applied: after [n + 1]
    conversions there are [n + 1] more.  The XMP marks are
    [pdfaid:part = 2] and [pdfaid:conformance = B] whatever the library
    copied from the document information, the XMP producer is the
    library's own stamp, and the document information is not kept: it
    is what the library derives from that XMP when the metadata block
    is left. *)
Theorem mark_pdfa_appends_an_intent_each_time pk pdf n :
  let pdf' := Nat.iter (S n) (mark_pdfa pk) pdf in
  xmp pdf' !! "pdfaid:part" = Some "2"
  ∧ xmp pdf' !! "pdfaid:conformance" = Some "B"
  ∧ xmp pdf' !! "pdf:Producer" = Some (producer pk)
  ∧ docinfo pdf'
    = update_docinfo pk (xmp pdf') (docinfo (Nat.iter n (mark_pdfa pk) pdf))
  ∧ output_intents pdf'
    = Some (default [] (output_intents pdf) ++ replicate (S n) output_intent).
Proof.
  induction n as [|n IH].
  - apply mark_pdfa_once.
  - destruct IH as (_ & _ & _ & _ & Ho).
    change (Nat.iter (S (S n)) (mark_pdfa pk) pdf)
      with (mark_pdfa pk (Nat.iter (S n) (mark_pdfa pk) pdf)).
    destruct (mark_pdfa_once pk (Nat.iter (S n) (mark_pdfa pk) pdf))
      as (Hp' & Hc' & Hpr' & Hd' & Ho').
    cbv zeta. rewrite Ho', Ho. split; [done|]. split; [done|].
    split; [done|]. split; [done|]. f_equal. cbn [default]. unfold id.
    rewrite <- app_assoc. f_equal.
    change [output_intent] with (replicate 1 output_intent).
    rewrite <- replicate_add. f_equal. lia.
Qed.

(** With the sample library a document without any information leaves
    the conversion with a producer entry: the document information is
    rewritten, not copied. *)
Example mark_pdfa_rewrites_producer :
  docinfo (mark_pdfa plain_pikepdf (mkPdf ∅ ∅ None))
  = {[ "/Producer" := "pikepdf 9.0.0" ]}.
Proof. vm_compute. reflexivity. Qed.




End TranslateFacts.

(** ** Font registration *)

Section RegistrationFacts.
Import Py Patcher Stream SweepSamples.

Lemma register_fonts_last lib name path before pageno : ∀ font_id0 d font_id d',
  register_fonts lib [(name, path)] (before ++ [pageno]) font_id0 d
  = inr (font_id, d') →
  ∃ d_prev xref,
    insert_font lib d_prev pageno name path = inr (xref, d')
    ∧ font_id !! name = Some xref
    ∧ ∀ other, other ≠ name → font_id !! other = font_id0 !! other.
Proof.
  induction before as [|p before IH]; intros fid0 d fid d'; simpl.
  - unfold bind.
    destruct (insert_font lib d pageno name path) as [err|[xref d1]] eqn:Hi;
      [done|].
    intros [= <- <-]. exists d, xref. split; [done|].
    split; [apply lookup_insert_eq|].
    intros other Hne. by rewrite lookup_insert_ne.
  - unfold bind at 1.
    destruct (insert_font lib d p name path) as [err|[xref d1]]; [done|].
    simpl. intros Hrest.
    destruct (IH _ _ _ _ Hrest) as (d_prev & x & Hi & Hx & Hother).
    exists d_prev, x. split; [done|]. split; [done|].
    intros other Hne. rewrite Hother by done. by rewrite lookup_insert_ne.
Qed.

(** X23. The font is inserted into every page, but [font_id] keeps only
    the object number returned for the last page: that is the number the
    scan then writes into every font dictionary.  For a document
    without pages [font_id] stays empty. *)
Theorem font_id_is_that_of_the_last_page lib font_path page_count d font_id d' :
  register_fonts lib (font_list font_path) (seq 0 page_count) ∅ d
  = inr (font_id, d') →
  match page_count with
  | O => font_id = ∅ ∧ d' = d
  | S last =>
      ∃ d_prev xref,
        insert_font lib d_prev last "CustomFont" font_path = inr (xref, d')
        ∧ font_id = {[ "CustomFont" := xref ]}
  end.
Proof.
  destruct page_count as [|last].
  - simpl. by intros [= <- <-].
  - rewrite seq_S. simpl. intros Hrun.
    destruct (register_fonts_last _ _ _ _ _ _ _ _ _ Hrun)
      as (d_prev & xref & Hi & Hx & Hother).
    exists d_prev, xref. split; [done|].
    apply map_eq. intros k. destruct (decide (k = "CustomFont")) as [->|Hne].
    + by rewrite Hx, lookup_singleton_eq.
    + rewrite Hother by done. by rewrite lookup_empty, lookup_singleton_ne.
Qed.

Lemma font_id_is_that_of_the_last_page_witness :
  ∃ d_prev xref,
    insert_font three_pages d_prev 2 "CustomFont" "/usr/share/fonts/simsun.ttc"
    = inr (xref, mkStore ∅ 10)
    ∧ ({[ "CustomFont" := 9 ]} : gmap string Z) = {[ "CustomFont" := xref ]}.
Proof.
  apply (font_id_is_that_of_the_last_page three_pages
           "/usr/share/fonts/simsun.ttc" 3 (mkStore ∅ 7)
           {[ "CustomFont" := 9 ]} (mkStore ∅ 10)).
  vm_compute. reflexivity.
Defined.

End RegistrationFacts.
